(** * A shallow embedding of [dvc/repo/experiments/init.py]

    The interactive [exp init] wizard: the prompt loop ([_prompt],
    [_prompts] on top of rich's [Prompt.ask]), the session
    ([init_interactive]) and the commit ([init]).

    Python dicts are insertion-ordered association lists; caller-owned
    dicts live in a heap of references so that the aliasing of [init]'s
    arguments is visible.  Operator input is the list of lines still to be
    read; everything written to a console is recorded, in order, in a
    trace of events tagged with the stream it goes to. *)

From Stdlib Require Import String Ascii List Bool Arith Lia.
From Stdlib Require Import Sorting.Sorted Sorting.Permutation.
Import ListNotations.
Open Scope list_scope.
Open Scope string_scope.

(** ** Strings *)

(** A character is a code point below 256 (Latin-1).  [str.isspace] holds
    of the ASCII blanks 9-13 and 32, of the separators 28-31, of NEL (133)
    and of NO-BREAK SPACE (160). *)
Definition is_space (c : ascii) : bool :=
  match nat_of_ascii c with
  | 9 | 10 | 11 | 12 | 13 | 28 | 29 | 30 | 31 | 32 | 133 | 160 => true
  | _ => false
  end.

Fixpoint lstrip_l (l : list ascii) : list ascii :=
  match l with
  | c :: r => if is_space c then lstrip_l r else l
  | [] => []
  end.

(** Python's [str.strip] with no argument. *)
Definition strip (s : string) : string :=
  string_of_list_ascii
    (rev (lstrip_l (rev (lstrip_l (list_ascii_of_string s))))).

(** [str.lower] on a code point below 256: the capitals A-Z, 192-214 and
    216-222 map to the letter 32 places on; every other one is its own
    lower case. *)
Definition lower_char (c : ascii) : ascii :=
  let n := nat_of_ascii c in
  if (((65 <=? n) && (n <=? 90)) || ((192 <=? n) && (n <=? 222) && negb (n =? 215)))%nat
  then ascii_of_nat (n + 32)%nat else c.

(** Python's [str.lower]. *)
Definition lower (s : string) : string :=
  string_of_list_ascii (map lower_char (list_ascii_of_string s)).

Fixpoint insert_sorted (x : string) (l : list string) : list string :=
  match l with
  | [] => [x]
  | y :: r => if String.leb x y then x :: l else y :: insert_sorted x r
  end.

(** Python's [sorted] on a list of strings. *)
Fixpoint sorted (l : list string) : list string :=
  match l with
  | [] => []
  | x :: r => insert_sorted x (sorted r)
  end.

Definition nl : string := String (ascii_of_nat 10%nat) EmptyString.

(** ** Python dicts with string keys *)

Definition dict (V : Type) := list (string * V).

Section Dict.
Context {V : Type}.

(** [d.get(k)] *)
Fixpoint get (k : string) (d : dict V) : option V :=
  match d with
  | [] => None
  | (k', v) :: r => if String.eqb k k' then Some v else get k r
  end.

Definition mem (k : string) (d : dict V) : bool :=
  match get k d with Some _ => true | None => false end.

Definition keys (d : dict V) : list string := map fst d.

(** [d[k] = v]: an existing key keeps its position. *)
Fixpoint setitem (k : string) (v : V) (d : dict V) : dict V :=
  match d with
  | [] => [(k, v)]
  | (k', v') :: r =>
      if String.eqb k k' then (k', v) :: r else (k', v') :: setitem k v r
  end.

(** [d.pop(k, None)], the dict part (keys are unique in a dict). *)
Definition delitem (k : string) (d : dict V) : dict V :=
  filter (fun kv => negb (String.eqb k (fst kv))) d.

(** [d.update(e)], also [{**d, **e}] on a copy of [d]. *)
Definition update (d e : dict V) : dict V :=
  fold_left (fun acc kv => setitem (fst kv) (snd kv) acc) e d.

End Dict.

(** funcy's [compact] on a dict: keep the items whose value is truthy
    (neither [None] nor the empty string). *)
Fixpoint compact (d : dict (option string)) : dict string :=
  match d with
  | [] => []
  | (k, Some v) :: r => if String.eqb v "" then compact r else (k, v) :: compact r
  | (k, None) :: r => compact r
  end.

(** funcy's [compact] on a list of optional strings. *)
Definition compact_list (l : list (option string)) : list string :=
  flat_map (fun o => match o with
                     | Some v => if String.eqb v "" then [] else [v]
                     | None => []
                     end) l.

(** funcy's [lremove(pred, seq)] where [pred] is a dict's key view: the
    items of [seq] that are not keys of the dict. *)
Definition lremove {V} (d : dict V) (seq : list string) : list string :=
  filter (fun k => negb (mem k d)) seq.

(** ** Consoles, the trace of output and the file system *)

Inductive stream := Stdout | Stderr.

Inductive event :=
| EvWrite (s : stream) (text : string)
    (** [ui.write] (standard output) or [ui.error_write] (standard error) *)
| EvAsk (s : stream) (key : string)
    (** rich renders the prompt of [PROMPTS[key]] on console [s] *)
| EvConfirm (s : stream) (question : string).
    (** rich renders a yes/no question on console [s] *)

Definition event_stream (e : event) : stream :=
  match e with EvWrite s _ | EvAsk s _ | EvConfirm s _ => s end.

(** The keys asked for, in order, in a trace. *)
Definition asked (t : list event) : list string :=
  flat_map (fun e => match e with EvAsk _ k => [k] | _ => [] end) t.

Inductive entry :=
| EDir
| EFile (params : option (list string)).
    (** a file, with the top-level keys of its parsed contents, or [None]
        when the file cannot be parsed *)

Definition fsmap := list (string * entry).

(** [os.path.exists] *)
Definition path_exists (fs : fsmap) (p : string) : bool := mem p fs.

(** ** Exceptions *)

Inductive Exc :=
| InputTerminated                   (** KeyboardInterrupt / EOFError *)
| FileNotFoundError (path : string)
| IsADirectoryError (path : string)
| DuplicateStageName (msg : string)
| DvcException (msg : string)
| AssertionError
| LoaderError (path : string).      (** the loader failed otherwise *)

Inductive res (A : Type) := Ok (a : A) | Raise (e : Exc).
Arguments Ok {A} a.
Arguments Raise {A} e.

(** ** The prompt engine: rich's [Prompt.ask] and [_prompt] *)

(** [PROMPTS] *)
Definition PROMPTS : dict string :=
  [("cmd", "[b]Command[/b] to execute");
   ("code", "Path to a [b]code[/b] file/directory");
   ("data", "Path to a [b]data[/b] file/directory");
   ("models", "Path to a [b]model[/b] file/directory");
   ("params", "Path to a [b]parameters[/b] file");
   ("metrics", "Path to a [b]metrics[/b] file");
   ("plots", "Path to a [b]plots[/b] file/directory");
   ("live", "Path to log [b]dvclive[/b] outputs")].

(** Every prompt is asked with [console=ui.error_console]. *)
Definition prompt_console : stream := Stderr.

Inductive prompt_cls := RequiredPrompt | SkippablePrompt.

Definition response_required : string :=
  "[prompt.invalid]Response required. Please try again.".

(** What rich makes of one line of input: an [InvalidResponse] (shown, then
    the question is asked again) or a value ([None] is Python's [None]). *)
Inductive answer := Invalid (msg : string) | Value (v : option string).

(** [RequiredPrompt.process_response] and [SkippablePrompt.process_response]
    on top of rich's [Prompt.process_response] ([str(value.strip())]). *)
Definition process_response (cls : prompt_cls) (value : string) : answer :=
  let ret := strip value in
  if String.eqb ret "" then Invalid response_required
  else match cls with
       | RequiredPrompt => Value (Some ret)
       | SkippablePrompt =>
           if String.eqb ret "n" then Value None else Value (Some ret)
       end.

(** One pass of rich's [PromptBase.__call__] loop after the line is read:
    [if value == "" and default != ...: return default]. *)
Definition rich_response (cls : prompt_cls) (default : option string)
    (value : string) : answer :=
  match default with
  | Some d => if String.eqb value "" then Value (Some d)
              else process_response cls value
  | None => process_response cls value
  end.

(** A validator returns normally, raises [RetryPrompt(reason)] or raises
    something else; it may write to the consoles on the way. *)
Inductive vres := VOk | VRetry (reason : string) | VRaise (e : Exc).

Definition validator_t := string -> option string -> fsmap -> vres * list event.

(** The [while True] loop of [_prompt] with rich's own loop inside: every
    pass renders the question and reads one line; an exhausted input is
    the EOFError of [RichInputMixin.get_input] (a blank line on the error
    console, then the exception). *)
Fixpoint prompt_loop (cls : prompt_cls) (key : string)
    (validator : option validator_t) (default : option string) (fs : fsmap)
    (lines : list string) : res (option string) * list string * list event :=
  match lines with
  | [] => (Raise InputTerminated, [],
           [EvAsk prompt_console key; EvWrite Stderr ""])
  | line :: rest =>
      match rich_response cls default line with
      | Invalid msg =>
          let '(r, rest', t) := prompt_loop cls key validator default fs rest in
          (r, rest', EvAsk prompt_console key :: EvWrite prompt_console msg :: t)
      | Value value =>
          match validator with
          | None => (Ok value, rest, [EvAsk prompt_console key])
          | Some f =>
              let '(vr, evs) := f key value fs in
              match vr with
              | VOk => (Ok value, rest, EvAsk prompt_console key :: evs)
              | VRetry reason =>
                  let '(r, rest', t) :=
                    prompt_loop cls key validator default fs rest in
                  (r, rest', EvAsk prompt_console key :: evs
                               ++ EvWrite Stderr ("[red]" ++ reason ++ "[/]") :: t)%list
              | VRaise e => (Raise e, rest, EvAsk prompt_console key :: evs)
              end
          end
      end
  end.

(** [prompt_cls = RequiredPrompt if key == "cmd" else SkippablePrompt] *)
Definition prompt_cls_of (key : string) : prompt_cls :=
  if String.eqb key "cmd" then RequiredPrompt else SkippablePrompt.

(** rich's [Confirm.process_response] *)
Definition confirm_response (value : string) : option bool :=
  let v := lower (strip value) in
  if String.eqb v "y" then Some true
  else if String.eqb v "n" then Some false
  else None.

(** [ConfirmationPrompt.ask(question, console=ui.error_console,
    default=True)] *)
Fixpoint confirm_loop (question : string) (lines : list string)
    : res bool * list string * list event :=
  match lines with
  | [] => (Raise InputTerminated, [],
           [EvConfirm prompt_console question; EvWrite Stderr ""])
  | line :: rest =>
      if String.eqb line "" then (Ok true, rest, [EvConfirm prompt_console question])
      else match confirm_response line with
           | Some b => (Ok b, rest, [EvConfirm prompt_console question])
           | None =>
               let '(r, rest', t) := confirm_loop question rest in
               (r, rest', EvConfirm prompt_console question
                            :: EvWrite prompt_console
                                 "[prompt.invalid]Please enter Y or N" :: t)
           end
  end.

(** ** Stages and the repository *)

(** The keyword arguments of [repo.stage.create]. *)
Record Stage := mkStage {
  s_name : string;
  s_cmd : string;
  s_deps : list string;
  s_params : list (dict (list string));
  s_metrics_no_cache : list string;
  s_plots_no_cache : list string;
  s_live : option string;
  s_outs : list string;
  s_checkpoints : list string;
}.

(** The persistent state [init] reads and writes: the workspace files,
    the stages of [dvc.yaml] ([None] when the file does not exist), the
    paths ignored by git and the paths staged in git. *)
Record Repo := mkRepo {
  r_fs : fsmap;
  r_dvcyaml : option (dict Stage);
  r_ignored : list string;
  r_tracked : list string;
}.

Definition ref := nat.
Definition heap := list (ref * dict string).

Record St := mkSt {
  st_input : list string;
  st_trace : list event;
  st_heap : heap;
  st_repo : Repo;
}.

(** ** A state and exception monad *)

Definition M (A : Type) := St -> res A * St.

Definition mret {A} (a : A) : M A := fun s => (Ok a, s).

Definition bind {A B} (m : M A) (k : A -> M B) : M B :=
  fun s => match m s with
           | (Ok a, s') => k a s'
           | (Raise e, s') => (Raise e, s')
           end.

Notation "x <- m ;; k" := (bind m (fun x => k))
  (at level 61, m at next level, right associativity).
Notation "m ;; k" := (bind m (fun _ => k)) (at level 61, right associativity).

Definition raise {A} (e : Exc) : M A := fun s => (Raise e, s).

Definition lift {A} (r : res A) : M A := fun s => (r, s).

Definition write (e : event) : M unit :=
  fun s => (Ok tt, mkSt (st_input s) (st_trace s ++ [e])%list (st_heap s) (st_repo s)).

Definition get_repo : M Repo := fun s => (Ok (st_repo s), s).

Definition put_repo (r : Repo) : M unit :=
  fun s => (Ok tt, mkSt (st_input s) (st_trace s) (st_heap s) r).

(** *** The heap of dict objects *)

Fixpoint heap_lookup (h : heap) (r : ref) : option (dict string) :=
  match h with
  | [] => None
  | (r', d) :: t => if Nat.eqb r r' then Some d else heap_lookup t r
  end.

Definition heap_set (h : heap) (r : ref) (d : dict string) : heap :=
  map (fun rd => if Nat.eqb r (fst rd) then (fst rd, d) else rd) h.

Definition fresh (h : heap) : ref := S (list_max (map fst h)).

Definition deref (r : ref) : M (dict string) :=
  fun s => (Ok (match heap_lookup (st_heap s) r with Some d => d | None => [] end), s).

(** a new dict object *)
Definition alloc (d : dict string) : M ref :=
  fun s => let r := fresh (st_heap s) in
           (Ok r, mkSt (st_input s) (st_trace s) (st_heap s ++ [(r, d)])%list (st_repo s)).

(** [d.pop(k, None)] on the object [r] *)
Definition pop (r : ref) (k : string) : M (option string) :=
  d <- deref r ;;
  fun s => (Ok (get k d),
            mkSt (st_input s) (st_trace s) (heap_set (st_heap s) r (delitem k d))
                 (st_repo s)).

(** [x or {}] for an optional dict argument: an empty dict is falsy, so a
    fresh one replaces it. *)
Definition or_empty (o : option ref) : M ref :=
  match o with
  | Some r => d <- deref r ;;
              match d with [] => alloc [] | _ :: _ => mret r end
  | None => alloc []
  end.

Definition truthy (o : option string) : bool :=
  match o with Some v => negb (String.eqb v "") | None => false end.

(** ** [_prompt] and [_prompts] *)

Definition _prompt (key : string) (validator : option validator_t)
    (default : option string) : M (option string) :=
  fun s =>
    let '(r, rest, t) :=
      prompt_loop (prompt_cls_of key) key validator default
                  (r_fs (st_repo s)) (st_input s) in
    (r, mkSt rest (st_trace s ++ t)%list (st_heap s) (st_repo s)).

(** [{key: _prompt(key, default=defaults.get(key), validator=validator)
      for key in keys}] *)
Fixpoint prompts_from (keys : list string) (defaults : ref)
    (validator : option validator_t) (acc : dict (option string))
    : M (dict (option string)) :=
  match keys with
  | [] => mret acc
  | key :: rest =>
      d <- deref defaults ;;
      v <- _prompt key validator (get key d) ;;
      prompts_from rest defaults validator (setitem key v acc)
  end.

Definition _prompts (keys : list string) (defaults : ref)
    (validator : option validator_t) : M (dict (option string)) :=
  prompts_from keys defaults validator [].

Definition ConfirmationPrompt_ask (question : string) : M bool :=
  fun s =>
    let '(r, rest, t) := confirm_loop question (st_input s) in
    (r, mkSt rest (st_trace s ++ t)%list (st_heap s) (st_repo s)).

(** ** [init_interactive] *)

Definition PIPELINE_FILE_LINK : string :=
  "https://dvc.org/doc/user-guide/project-structure/pipelines-files".

Definition nonempty {A} (l : list A) : bool :=
  match l with [] => false | _ :: _ => true end.

(** The values shown in the workspace tree, after the suppressions. *)
Definition tree_values (live : bool) (provided workspace : dict string)
    : list string :=
  let w := if negb live && negb (mem "live" provided)
           then delitem "live" workspace else workspace in
  let w := fold_left (fun w key => if live && negb (mem key provided)
                                   then delitem key w else w)
                     ["plots"; "metrics"] w in
  sorted (map snd w).

Definition render_tree (values : list string) : string :=
  fold_left (fun acc v => acc ++ nl ++ "[green]" ++ v ++ "[/green]") values
            "DVC assumes the following workspace structure:".

(** Lines 185-227: everything after the early return, up to the answers
    that [compact] is applied to. *)
Definition session_answers (name : string) (defaults provided : ref)
    (validator : option validator_t) (show_tree live : bool)
    (command : option string) (primary secondary : list string)
    : M (dict (option string)) :=
  write (EvWrite Stderr
           ("This command will guide you to set up a " ++ name
            ++ " stage in dvc.yaml." ++ nl ++ "See " ++ PIPELINE_FILE_LINK
            ++ "." ++ nl ++ "")) ;;
  ret <- (if negb (truthy command)
          then r <- _prompts ["cmd"] defaults None ;;
               write (EvWrite Stdout "") ;;
               mret (update [] r)
          else mret (update [] [("cmd", command)])) ;;
  write (EvWrite Stdout
           "Enter the paths for dependencies and outputs of the command.") ;;
  d <- deref defaults ;;
  prov <- deref provided ;;
  let workspace := update d prov in
  (if show_tree && nonempty workspace
   then write (EvWrite Stderr (render_tree (tree_values live prov workspace)))
   else mret tt) ;;
  write (EvWrite Stderr "") ;;
  p1 <- _prompts primary defaults validator ;;
  let ret := update ret p1 in
  p2 <- _prompts secondary defaults validator ;;
  mret (update ret p2).

Definition primary_keys : list string := ["code"; "data"; "models"; "params"].

Definition secondary_keys (live : bool) : list string :=
  if live then ["live"] else ["metrics"; "plots"].

Definition init_interactive (name : string) (defaults provided : ref)
    (validator : option validator_t) (show_tree live : bool)
    : M (dict string) :=
  command <- pop provided "cmd" ;;
  prov <- deref provided ;;
  let primary := lremove prov primary_keys in
  let secondary := lremove prov (secondary_keys live) in
  if negb (truthy command || nonempty primary || nonempty secondary)
  then mret []
  else ret <- session_answers name defaults provided validator show_tree live
                              command primary secondary ;;
       mret (compact ret).

(** ** Collaborators outside [init.py] *)

(** Modelled from the spec (the params loader, [dvc.utils.serialize.LOADERS],
    is not part of [init.py]): [loadd_params] opens the file and lists its
    top-level keys; opening a missing path raises [FileNotFoundError], a
    directory [IsADirectoryError]; a file that does not parse raises the
    loader's own error. *)
Definition loadd_params (fs : fsmap) (path : string) : res (dict (list string)) :=
  match get path fs with
  | None => Raise (FileNotFoundError path)
  | Some EDir => Raise (IsADirectoryError path)
  | Some (EFile None) => Raise (LoaderError path)
  | Some (EFile (Some ks)) => Ok [(path, ks)]
  end.

Definition stage_exists (dvcyaml : option (dict Stage)) (name : string) : bool :=
  match dvcyaml with Some stages => mem name stages | None => false end.

Definition duplicate_msg (name : string) : string :=
  "Stage '" ++ name ++ "' already exists in 'dvc.yaml'. Use '--force' to overwrite.".

(** Modelled from the spec (§6, the Stage Assembler, [repo.stage.create],
    is not part of [init.py]): it builds the stage in memory, writes
    nothing, and fails with a duplicate-name error under the pre-check's
    condition. *)
Definition stage_create (dvcyaml : option (dict Stage)) (name cmd : string)
    (deps : list string) (params : list (dict (list string)))
    (metrics_no_cache plots_no_cache : list string) (live : option string)
    (force : bool) (outs checkpoints : list string) : res Stage :=
  if negb force && stage_exists dvcyaml name
  then Raise (DuplicateStageName (duplicate_msg name))
  else Ok (mkStage name cmd deps params metrics_no_cache plots_no_cache live
                   outs checkpoints).

(** Modelled from the spec: [stage.dump(update_lock=False)] puts the stage
    into [dvc.yaml], creating the file if needed. *)
Definition stage_dump (st : Stage) (r : Repo) : Repo :=
  mkRepo (r_fs r)
         (Some (setitem (s_name st) st
                  (match r_dvcyaml r with Some d => d | None => [] end)))
         (r_ignored r) (r_tracked r).

(** Modelled from the spec: [stage.ignore_outs()] marks the cached outputs
    as ignored by git. *)
Definition stage_ignore_outs (st : Stage) (r : Repo) : Repo :=
  mkRepo (r_fs r) (r_dvcyaml r) (r_ignored r ++ s_outs st ++ s_checkpoints st)%list
         (r_tracked r).

(** Modelled from the spec: [scm.track_file(path)]. *)
Definition scm_track_file (path : string) (r : Repo) : Repo :=
  mkRepo (r_fs r) (r_dvcyaml r) (r_ignored r) (r_tracked r ++ [path])%list.

(** Modelled from the spec: on leaving [scm.track_file_changes(autostage=True)]
    the files changed inside the scope are staged. *)
Definition scm_autostage (before after : Repo) : Repo :=
  mkRepo (r_fs after) (r_dvcyaml after) (r_ignored after)
         (r_tracked after ++ ["dvc.yaml"]
          ++ (if Nat.eqb (length (r_ignored before)) (length (r_ignored after))
              then [] else [".gitignore"]))%list.

(** Modelled from the spec: [dumps_yaml(to_pipeline_file(stage))], the
    review text. *)
Definition dumps_stage (st : Stage) : string :=
  "stages:" ++ nl ++ "  " ++ s_name st ++ ":" ++ nl ++ "    cmd: " ++ s_cmd st.

(** ** [init] *)

Definition dq : string := String (ascii_of_nat 34%nat) EmptyString.

(** [_check_stage_exists(dvcfile, name, force)] *)
Definition _check_stage_exists (name : string) (force : bool) : M unit :=
  r <- get_repo ;;
  if negb force && stage_exists (r_dvcyaml r) name
  then raise (DuplicateStageName (duplicate_msg name))
  else mret tt.

(** [validate_prompts_input], the validator [init] hands to the session. *)
Definition validate_prompts_input (key : string) (value : option string)
    (fs : fsmap) : vres * list event :=
  match value with
  | None => (VOk, [])
  | Some v =>
      if String.eqb key "params" then
        match loadd_params fs v with
        | Ok _ => (VOk, [])
        | Raise (FileNotFoundError _) =>
            (VRetry ("'" ++ v ++ "' does not exist. "
                     ++ "Please retry with an existing parameters file."), [])
        | Raise (IsADirectoryError _) =>
            (VRetry ("'" ++ v ++ "' is a directory. "
                     ++ "Please retry with an existing parameters file."), [])
        | Raise e => (VRaise e, [])
        end
      else if String.eqb key "code" || String.eqb key "data" then
        if path_exists fs v then (VOk, [])
        else (VOk, [EvWrite Stderr ("[yellow]'" ++ v
                     ++ "' does not exist in the workspace. " ++ dq ++ "exp run"
                     ++ dq ++ " may fail.[/]")])
      else (VOk, [])
  end.

(** [name or type] *)
Definition stage_name (name : option string) (type_ : string) : string :=
  match name with
  | Some n => if String.eqb n "" then type_ else n
  | None => type_
  end.

(** Lines 266-314 of [init]: the merged context. *)
Definition init_context (name : string) (type_ : string)
    (defaults overrides : option ref) (interactive : bool)
    : M (dict string) :=
  dref <- or_empty defaults ;;
  oref <- or_empty overrides ;;
  let with_live := String.eqb type_ "live" in
  dflt <- (if interactive
           then init_interactive name dref oref (Some validate_prompts_input)
                                 true with_live
           else (if with_live
                 then pop dref "metrics" ;; pop dref "plots" ;; mret tt
                 else pop dref "live" ;; mret tt) ;;
                deref dref) ;;
  ovr <- deref oref ;;
  mret (update dflt ovr).

(** Lines 259-340 of [init]: everything before the final confirmation.
    It returns the stage and the [params] entry of the context. *)
Definition init_stage (name : option string) (type_ : string)
    (defaults overrides : option ref) (interactive force : bool)
    : M (Stage * option string) :=
  let name := stage_name name type_ in
  _check_stage_exists name force ;;
  context <- init_context name type_ defaults overrides interactive ;;
  match get "cmd" context with
  | None => raise AssertionError
  | Some cmd =>
      let params := get "params" context in
      r <- get_repo ;;
      params_kv <- (if truthy params
                    then kv <- lift (loadd_params (r_fs r)
                                       (match params with Some p => p | None => "" end)) ;;
                         mret [kv]
                    else mret []) ;;
      let checkpoint_out := truthy (get "live" context) in
      let models := get "models" context in
      stage <- lift (stage_create (r_dvcyaml r) name cmd
                       (compact_list [get "code" context; get "data" context])
                       params_kv
                       (compact_list [get "metrics" context])
                       (compact_list [get "plots" context])
                       (get "live" context) force
                       (if checkpoint_out then [] else compact_list [models])
                       (if checkpoint_out then compact_list [models] else [])) ;;
      (if interactive
       then write (EvWrite Stdout "[green]----[/green]") ;;
            write (EvWrite Stderr (dumps_stage stage))
       else mret tt) ;;
      mret (stage, params)
  end.

(** The block under [with _disable_logging(), scm.track_file_changes(
    autostage=True)]; disabling logging has no effect on this model. *)
Definition commit_unit (stage : Stage) (params : option string) : M unit :=
  r0 <- get_repo ;;
  let r1 := stage_ignore_outs stage (stage_dump stage r0) in
  let r2 := match params with
            | Some p => if truthy params then scm_track_file p r1 else r1
            | None => r1
            end in
  put_repo (scm_autostage r0 r2).

(** Lines 342-355 of [init]. *)
Definition init_commit (interactive : bool) (stage : Stage)
    (params : option string) : M Stage :=
  ok <- (if negb interactive then mret true
         else ConfirmationPrompt_ask
                "Do you want to add the above contents to dvc.yaml?") ;;
  if ok then commit_unit stage params ;; mret stage
  else raise (DvcException "Aborting ...").

Definition init (name : option string) (type_ : string)
    (defaults overrides : option ref) (interactive force : bool) : M Stage :=
  sp <- init_stage name type_ defaults overrides interactive force ;;
  init_commit interactive (fst sp) (snd sp).

(** ** Concrete inputs *)

(** Overrides that supply the command and every other key. *)
Definition w_full_overrides : dict string :=
  [("cmd", "python train.py"); ("code", "src"); ("data", "data");
   ("models", "model.pkl"); ("params", "params.yaml");
   ("metrics", "metrics.json"); ("plots", "plots")].

Definition w_repo : Repo :=
  mkRepo [("src", EDir); ("data", EDir); ("params.yaml", EFile (Some ["lr"]))]
         None [] [].

Definition w_full_state : St := mkSt [] [] [(1, w_full_overrides)] w_repo.

(** The overrides of the spec's example. *)
Definition w_overrides : dict string :=
  [("cmd", "python train.py"); ("code", "src"); ("data", "data")].

(** The overrides dict is object [1] of the heap; [lines] is what the
    operator types. *)
Definition w_state (lines : list string) : St :=
  mkSt lines [] [(1, w_overrides)] w_repo.

(** A [dvc.yaml] that already has a stage named [default]. *)
Definition w_repo_dup : Repo :=
  mkRepo [] (Some [("default", mkStage "default" "echo" [] [] [] [] None [] [])])
         [] [].

(** Overrides (object [1]) that set [metrics], and defaults (object [2])
    that set [metrics] and [plots]. *)
Definition w_modes_state : St :=
  mkSt [] [] [(1, [("cmd", "python train.py"); ("metrics", "m.json")]);
              (2, [("metrics", "d.json"); ("plots", "p")])] w_repo.

(** ** Predicates used in the proofs *)

(** [stable R m]: whatever [m] returns or raises, the state it leaves is
    related to the one it started from by the preorder [R]. *)
Definition stable (R : St -> St -> Prop) {A} (m : M A) : Prop :=
  forall s, R s (snd (m s)).

Definition same_repo (s s' : St) : Prop := st_repo s' = st_repo s.

Definition sub_dict (d' d : dict string) : Prop :=
  forall k, mem k d' = true -> mem k d = true.

(** Every object of the heap is still there, with no key added. *)
Definition heap_shrinks (s s' : St) : Prop :=
  forall r d, heap_lookup (st_heap s) r = Some d ->
  exists d', heap_lookup (st_heap s') r = Some d' /\ sub_dict d' d.

(** Steps that only write to a console or read input. *)
Definition io_only {A} (m : M A) : Prop :=
  forall s, st_heap (snd (m s)) = st_heap s /\ st_repo (snd (m s)) = st_repo s.

Definition is_dup (e : Exc) : bool :=
  match e with DuplicateStageName _ => true | _ => false end.

(** [m] never raises a duplicate-stage error. *)
Definition no_dup {A} (m : M A) : Prop :=
  forall s e, fst (m s) = Raise e -> is_dup e = false.

(** [m] raises a duplicate-stage error only if [P] holds of the repository
    it starts from. *)
Definition dup_only_if {A} (P : Repo -> Prop) (m : M A) : Prop :=
  forall s e, fst (m s) = Raise e -> is_dup e = true -> P (st_repo s).

(** The validator raises nothing but (at most) non-duplicate errors. *)
Definition validator_no_dup (v : option validator_t) : Prop :=
  forall f k val fs e, v = Some f -> fst (f k val fs) = VRaise e -> is_dup e = false.

(** The pre-check raises exactly under its condition. *)
Definition dup_cond (name : string) (force : bool) (r : Repo) : Prop :=
  force = false /\ stage_exists (r_dvcyaml r) name = true.

(** The object [r] exists and has no key [k]. *)
Definition lacks (r : ref) (k : string) (s : St) : Prop :=
  exists d, heap_lookup (st_heap s) r = Some d /\ mem k d = false.

(** The validator's own output asks nothing. *)
Definition quiet (v : option validator_t) : Prop :=
  forall f k val fs, v = Some f -> asked (snd (f k val fs)) = [].

(** [asks_each keys l]: [l] asks every key of [keys], in order, one or more
    times each. *)
Inductive asks_each : list string -> list string -> Prop :=
| asks_nil : asks_each [] []
| asks_cons k n ks l : asks_each ks l -> asks_each (k :: ks) (repeat k (S n) ++ l)%list.

(** [returns P m]: whatever [m] returns satisfies [P]. *)
Definition returns {A} (P : A -> Prop) (m : M A) : Prop :=
  forall s a s', m s = (Ok a, s') -> P a.

(** [asks ks m]: a completed run of [m] appends to the trace events that
    ask every key of [ks], in order, one or more times each. *)
Definition asks (ks : list string) {A} (m : M A) : Prop :=
  forall s a s', m s = (Ok a, s') ->
  exists t, st_trace s' = (st_trace s ++ t)%list /\ asks_each ks (asked t).

(** Nothing read from the input and nothing written to a console. *)
Definition same_io (s s' : St) : Prop :=
  st_input s' = st_input s /\ st_trace s' = st_trace s.

(** What [deref r] returns in state [s]. *)
Definition deref_val (s : St) (r : ref) : dict string :=
  match heap_lookup (st_heap s) r with Some d => d | None => [] end.

(** The object [r] holds the same dict in both states. *)
Definition keeps (r : ref) (s s' : St) : Prop := deref_val s' r = deref_val s r.

(** * Proofs *)

(** ** Dicts *)

Ltac str_cases :=
  repeat match goal with
         | |- context [String.eqb ?a ?b] =>
             destruct (String.eqb_spec a b); subst
         end; cbn; try reflexivity; try congruence.

Lemma mem_cons {V} k k' (v : V) d :
  mem k ((k', v) :: d) = String.eqb k k' || mem k d.
Proof. unfold mem; simpl; str_cases. Qed.

Lemma mem_nil {V} k : mem k (@nil (string * V)) = false.
Proof. reflexivity. Qed.

Lemma mem_delitem {V} k k' (d : dict V) :
  mem k (delitem k' d) = if String.eqb k k' then false else mem k d.
Proof.
  induction d as [|[k0 v0] d IH]; [str_cases|].
  unfold delitem in *; simpl.
  destruct (String.eqb_spec k' k0) as [->|Hne]; simpl.
  - rewrite IH, mem_cons. str_cases.
  - rewrite !mem_cons, IH. str_cases.
Qed.

Lemma mem_setitem {V} k k' (v : V) d :
  mem k (setitem k' v d) = String.eqb k k' || mem k d.
Proof.
  induction d as [|[k0 v0] d IH]; simpl.
  - rewrite mem_cons; reflexivity.
  - destruct (String.eqb_spec k' k0) as [->|Hne].
    + rewrite !mem_cons. str_cases.
    + rewrite !mem_cons, IH. str_cases; destruct (mem k0 d); reflexivity.
Qed.

Lemma mem_update {V} k (d e : dict V) :
  mem k (update d e) = mem k d || mem k e.
Proof.
  unfold update; revert d; induction e as [|[k0 v0] e IH]; intro d; simpl.
  - rewrite orb_false_r; reflexivity.
  - rewrite IH, mem_setitem, mem_cons.
    destruct (mem k d), (String.eqb k k0), (mem k e); reflexivity.
Qed.

Lemma mem_compact k d : mem k (compact d) = true -> mem k d = true.
Proof.
  induction d as [|[k0 [v0|]] d IH]; simpl; auto.
  - destruct (String.eqb v0 ""); rewrite ?mem_cons; intro H; auto.
    + rewrite IH; [apply orb_true_r|assumption].
    + destruct (String.eqb k k0); auto.
  - rewrite mem_cons; intro H; rewrite IH; [apply orb_true_r|assumption].
Qed.

Lemma compact_drops_none k d :
  NoDup (keys d) -> get k d = Some None -> mem k (compact d) = false.
Proof.
  induction d as [|[k0 v0] d IH]; simpl; [discriminate|].
  intros Hnd Hget; inversion Hnd as [|? ? Hnotin Hnd']; subst.
  destruct (String.eqb_spec k k0) as [->|Hne].
  - inversion Hget; subst.
    assert (Hn : mem k0 d = false).
    { unfold mem, keys in *. clear -Hnotin. induction d as [|[k1 v1] d IH]; simpl in *; auto.
      destruct (String.eqb_spec k0 k1); [subst; exfalso; auto|].
      apply IH; intuition. }
    clear -Hn. induction d as [|[k1 [v1|]] d IH]; simpl; auto;
      rewrite mem_cons in Hn; apply orb_false_iff in Hn as [H1 H2].
    + destruct (String.eqb v1 ""); rewrite ?mem_cons, ?H1; auto.
    + auto.
  - destruct v0 as [v0|]; [destruct (String.eqb v0 "")|]; rewrite ?mem_cons; auto.
    apply String.eqb_neq in Hne; rewrite Hne; auto.
Qed.

(** ** The heap *)

Lemma heap_lookup_set h r d r' :
  heap_lookup (heap_set h r d) r' =
  if Nat.eqb r r' then option_map (fun _ => d) (heap_lookup h r)
  else heap_lookup h r'.
Proof.
  induction h as [|[r0 d0] h IH]; simpl.
  - destruct (Nat.eqb r r'); reflexivity.
  - destruct (Nat.eqb_spec r r0) as [->|Hne]; simpl.
    + destruct (Nat.eqb_spec r' r0) as [->|Hne'];
        [rewrite Nat.eqb_refl; reflexivity|].
      rewrite IH. destruct (Nat.eqb_spec r0 r'); [congruence|reflexivity].
    + rewrite IH. destruct (Nat.eqb_spec r' r0) as [->|Hne'].
      * destruct (Nat.eqb_spec r r0); [congruence|reflexivity].
      * destruct (Nat.eqb r r'); reflexivity.
Qed.

Lemma heap_lookup_fresh h : heap_lookup h (fresh h) = None.
Proof.
  assert (Hlt : forall r, In r (map fst h) -> r < fresh h).
  { intros r Hr. unfold fresh. apply Nat.lt_succ_r.
    pose proof (proj1 (list_max_le (map fst h) (list_max (map fst h))) (le_n _))
      as H.
    rewrite Forall_forall in H. auto. }
  revert Hlt. generalize (fresh h) as f. intros f Hlt.
  induction h as [|[r0 d0] h IH]; simpl; auto.
  destruct (Nat.eqb_spec f r0) as [->|Hne].
  - specialize (Hlt r0 (or_introl eq_refl)); lia.
  - apply IH; intros r Hr; apply Hlt; right; exact Hr.
Qed.

Lemma heap_lookup_app h h' r d :
  heap_lookup h r = Some d -> heap_lookup (h ++ h')%list r = Some d.
Proof.
  induction h as [|[r0 d0] h IH]; simpl; [discriminate|].
  destruct (Nat.eqb r r0); auto.
Qed.

Lemma heap_lookup_app_none h h' r :
  heap_lookup h r = None -> heap_lookup (h ++ h')%list r = heap_lookup h' r.
Proof.
  induction h as [|[r0 d0] h IH]; simpl; auto.
  destruct (Nat.eqb r r0); [discriminate|auto].
Qed.

(** ** Frame properties of monadic code *)

Section Stable.
Variable R : St -> St -> Prop.
Hypothesis R_refl : forall s, R s s.
Hypothesis R_trans : forall s1 s2 s3, R s1 s2 -> R s2 s3 -> R s1 s3.

Lemma stable_bind {A B} (m : M A) (k : A -> M B) :
  stable R m -> (forall a, stable R (k a)) -> stable R (bind m k).
Proof.
  intros Hm Hk s. unfold bind. specialize (Hm s).
  destruct (m s) as [[a|e] s'] eqn:E; simpl in *; [|exact Hm].
  exact (R_trans _ _ _ Hm (Hk a s')).
Qed.

Lemma stable_mret {A} (a : A) : stable R (mret a).
Proof. intro s; apply R_refl. Qed.

Lemma stable_raise {A} e : stable R (@raise A e).
Proof. intro s; apply R_refl. Qed.

Lemma stable_lift {A} (r : res A) : stable R (lift r).
Proof. intro s; apply R_refl. Qed.

Lemma stable_get_repo : stable R get_repo.
Proof. intro s; apply R_refl. Qed.

Lemma stable_deref r : stable R (deref r).
Proof. intro s; apply R_refl. Qed.

End Stable.

Lemma same_repo_refl s : same_repo s s.
Proof. reflexivity. Qed.

Lemma same_repo_trans s1 s2 s3 :
  same_repo s1 s2 -> same_repo s2 s3 -> same_repo s1 s3.
Proof. unfold same_repo; congruence. Qed.

Lemma heap_shrinks_refl s : heap_shrinks s s.
Proof. intros r d H; exists d; split; [exact H|intros k Hk; exact Hk]. Qed.

Lemma heap_shrinks_trans s1 s2 s3 :
  heap_shrinks s1 s2 -> heap_shrinks s2 s3 -> heap_shrinks s1 s3.
Proof.
  intros H12 H23 r d H. destruct (H12 r d H) as [d2 [H2 S2]].
  destruct (H23 r d2 H2) as [d3 [H3 S3]].
  exists d3; split; [exact H3|intros k Hk; auto].
Qed.

Create HintDb frame.
#[local] Hint Resolve same_repo_refl same_repo_trans heap_shrinks_refl
  heap_shrinks_trans : frame.
#[local] Hint Resolve stable_mret stable_raise stable_lift stable_get_repo
  stable_deref : frame.

(** Split a monadic term into its steps. *)
Ltac frame_step :=
  match goal with
  | |- @stable _ _ (bind _ _) =>
      apply stable_bind; try solve [eauto with frame];
      try match goal with |- forall _, @stable _ _ _ => intro end
  | |- @stable _ _ (if ?b then _ else _) => destruct b
  | |- @stable _ _ (match ?x with _ => _ end) => destruct x
  | |- @stable _ _ (let '(_, _) := ?x in _) => destruct x
  end.

Ltac frame := repeat (frame_step || (progress auto with frame)).

Lemma io_only_same_repo {A} (m : M A) : io_only m -> stable same_repo m.
Proof. intros H s; apply H. Qed.

Lemma io_only_shrinks {A} (m : M A) : io_only m -> stable heap_shrinks m.
Proof. intros H s r d Hd; exists d; split; [rewrite (proj1 (H s)); exact Hd|intros k Hk; exact Hk]. Qed.

Lemma io_only_write e : io_only (write e).
Proof. intro s; split; reflexivity. Qed.

Lemma io_only_prompt key v d : io_only (_prompt key v d).
Proof.
  intro s; unfold _prompt.
  destruct (prompt_loop _ _ _ _ _ _) as [[r rest] t]; split; reflexivity.
Qed.

Lemma io_only_confirm q : io_only (ConfirmationPrompt_ask q).
Proof.
  intro s; unfold ConfirmationPrompt_ask.
  destruct (confirm_loop _ _) as [[r rest] t]; split; reflexivity.
Qed.

#[local] Hint Resolve io_only_same_repo io_only_shrinks io_only_write
  io_only_prompt io_only_confirm : frame.

Lemma pop_same_repo r k : stable same_repo (pop r k).
Proof. intro s; reflexivity. Qed.

Lemma sub_dict_delitem k d : sub_dict (delitem k d) d.
Proof.
  intros k' H; rewrite mem_delitem in H; destruct (String.eqb k' k);
    [discriminate|exact H].
Qed.

Lemma pop_shrinks r k : stable heap_shrinks (pop r k).
Proof.
  intros s r' d Hd; unfold pop, bind, deref; simpl.
  rewrite heap_lookup_set.
  destruct (Nat.eqb_spec r r') as [<-|Hne].
  - rewrite Hd; simpl; eexists; split; [reflexivity|apply sub_dict_delitem].
  - exists d; split; [exact Hd|intros k0 H; exact H].
Qed.

(** After [d.pop(k)] the object has no key [k]. *)
Lemma pop_removes r k s d :
  heap_lookup (st_heap s) r = Some d ->
  exists d', heap_lookup (st_heap (snd (pop r k s))) r = Some d'
             /\ mem k d' = false /\ sub_dict d' d.
Proof.
  intro Hd; unfold pop, bind, deref; simpl.
  rewrite heap_lookup_set, Nat.eqb_refl, Hd; simpl.
  eexists; split; [reflexivity|split; [|apply sub_dict_delitem]].
  rewrite mem_delitem, String.eqb_refl; reflexivity.
Qed.

Lemma alloc_same_repo d : stable same_repo (alloc d).
Proof. intro s; reflexivity. Qed.

Lemma alloc_shrinks d : stable heap_shrinks (alloc d).
Proof.
  intros s r d' Hd; exists d'; split; [apply heap_lookup_app; exact Hd|].
  intros k H; exact H.
Qed.

Lemma put_repo_shrinks r : stable heap_shrinks (put_repo r).
Proof. intros s r' d Hd; exists d; split; [exact Hd|intros k H; exact H]. Qed.

#[local] Hint Resolve pop_same_repo pop_shrinks alloc_same_repo alloc_shrinks
  put_repo_shrinks : frame.

Lemma or_empty_same_repo o : stable same_repo (or_empty o).
Proof. unfold or_empty; frame. Qed.

Lemma or_empty_shrinks o : stable heap_shrinks (or_empty o).
Proof. unfold or_empty; frame. Qed.

Lemma io_only_bind {A B} (m : M A) (k : A -> M B) :
  io_only m -> (forall a, io_only (k a)) -> io_only (bind m k).
Proof.
  intros Hm Hk s; unfold bind; specialize (Hm s).
  destruct (m s) as [[a|e] s'] eqn:E; simpl in *; [|exact Hm].
  destruct Hm, (Hk a s'); split; congruence.
Qed.

Lemma io_only_mret {A} (a : A) : io_only (mret a).
Proof. intro s; split; reflexivity. Qed.

Lemma io_only_deref r : io_only (deref r).
Proof. intro s; split; reflexivity. Qed.

Lemma prompts_from_io keys defaults v acc :
  io_only (prompts_from keys defaults v acc).
Proof.
  revert acc; induction keys as [|key rest IH]; intros acc; simpl.
  - apply io_only_mret.
  - apply io_only_bind; [apply io_only_deref|intro d].
    apply io_only_bind; [apply io_only_prompt|intro a]. apply IH.
Qed.

#[local] Hint Resolve prompts_from_io : frame.

Lemma session_answers_same_repo name d p v t l c pr se :
  stable same_repo (session_answers name d p v t l c pr se).
Proof. unfold session_answers, _prompts; frame. Qed.

Lemma session_answers_shrinks name d p v t l c pr se :
  stable heap_shrinks (session_answers name d p v t l c pr se).
Proof. unfold session_answers, _prompts; frame. Qed.

#[local] Hint Resolve session_answers_same_repo session_answers_shrinks : frame.

Lemma init_interactive_same_repo name d p v t l :
  stable same_repo (init_interactive name d p v t l).
Proof. unfold init_interactive; frame. Qed.

Lemma init_interactive_shrinks name d p v t l :
  stable heap_shrinks (init_interactive name d p v t l).
Proof. unfold init_interactive; frame. Qed.

#[local] Hint Resolve init_interactive_same_repo init_interactive_shrinks
  or_empty_same_repo or_empty_shrinks : frame.

Lemma check_same_repo name force : stable same_repo (_check_stage_exists name force).
Proof. unfold _check_stage_exists; frame. Qed.

Lemma check_shrinks name force : stable heap_shrinks (_check_stage_exists name force).
Proof. unfold _check_stage_exists; frame. Qed.

#[local] Hint Resolve check_same_repo check_shrinks : frame.

Lemma init_context_same_repo name t d o i : stable same_repo (init_context name t d o i).
Proof. unfold init_context; frame. Qed.

Lemma init_context_shrinks name t d o i : stable heap_shrinks (init_context name t d o i).
Proof. unfold init_context; frame. Qed.

#[local] Hint Resolve init_context_same_repo init_context_shrinks : frame.

(** Nothing before the final confirmation touches the repository. *)
Lemma init_stage_same_repo name t d o i f : stable same_repo (init_stage name t d o i f).
Proof. unfold init_stage; frame. Qed.

Lemma init_stage_shrinks name t d o i f : stable heap_shrinks (init_stage name t d o i f).
Proof. unfold init_stage; frame. Qed.

Lemma commit_unit_shrinks st p : stable heap_shrinks (commit_unit st p).
Proof. unfold commit_unit; frame. Qed.

#[local] Hint Resolve init_stage_same_repo init_stage_shrinks commit_unit_shrinks : frame.

Lemma init_commit_shrinks i st p : stable heap_shrinks (init_commit i st p).
Proof. unfold init_commit; frame. Qed.

#[local] Hint Resolve init_commit_shrinks : frame.

Lemma init_shrinks name t d o i f : stable heap_shrinks (init name t d o i f).
Proof. unfold init; frame. Qed.

(** ** Where a duplicate-stage error can come from *)

Lemma no_dup_bind {A B} (m : M A) (k : A -> M B) :
  no_dup m -> (forall a, no_dup (k a)) -> no_dup (bind m k).
Proof.
  intros Hm Hk s e; unfold bind; specialize (Hm s).
  destruct (m s) as [[a|e'] s'] eqn:E; simpl in *; [apply Hk|].
  intro H; inversion H; subst; apply Hm; reflexivity.
Qed.

Lemma no_dup_mret {A} (a : A) : no_dup (mret a).
Proof. intros s e H; discriminate. Qed.

Lemma no_dup_raise {A} e : is_dup e = false -> no_dup (@raise A e).
Proof. intros He s e' H; inversion H; subst; exact He. Qed.

Lemma no_dup_io {A} (m : M A) :
  (forall s e, fst (m s) = Raise e -> e = InputTerminated) -> no_dup m.
Proof. intros H s e He; rewrite (H s e He); reflexivity. Qed.

Lemma no_dup_write e : no_dup (write e).
Proof. intros s e' H; discriminate. Qed.

Lemma no_dup_deref r : no_dup (deref r).
Proof. intros s e' H; discriminate. Qed.

Lemma no_dup_alloc d : no_dup (alloc d).
Proof. intros s e' H; discriminate. Qed.

Lemma no_dup_pop r k : no_dup (pop r k).
Proof. intros s e' H; discriminate. Qed.

Lemma no_dup_get_repo : no_dup get_repo.
Proof. intros s e' H; discriminate. Qed.

Lemma no_dup_put_repo r : no_dup (put_repo r).
Proof. intros s e' H; discriminate. Qed.

Lemma no_dup_loadd fs p : no_dup (lift (loadd_params fs p)).
Proof.
  intros s e H; unfold lift, loadd_params in H; simpl in H.
  destruct (get p fs) as [[|[ks|]]|]; inversion H; reflexivity.
Qed.

Lemma no_dup_confirm q : no_dup (ConfirmationPrompt_ask q).
Proof.
  apply no_dup_io; intros s e; unfold ConfirmationPrompt_ask.
  generalize (st_input s) as lines; intro lines.
  induction lines as [|l rest IH]; simpl.
  - intro H; inversion H; reflexivity.
  - destruct (String.eqb l ""); [discriminate|].
    destruct (confirm_response l); [discriminate|].
    destruct (confirm_loop q rest) as [[r rest'] t] eqn:E; simpl in *.
    exact IH.
Qed.

Lemma validate_prompts_input_no_dup : validator_no_dup (Some validate_prompts_input).
Proof.
  intros f k val fs e Hf H; inversion Hf; subst f; clear Hf.
  unfold validate_prompts_input in H.
  destruct val as [v|]; [|discriminate].
  destruct (String.eqb k "params").
  - unfold loadd_params in H.
    destruct (get v fs) as [[|[ks|]]|]; inversion H; reflexivity.
  - destruct (String.eqb k "code" || String.eqb k "data");
      [destruct (path_exists fs v)|]; discriminate.
Qed.

Lemma validator_no_dup_none : validator_no_dup None.
Proof. intros f k val fs e H; discriminate. Qed.

Lemma no_dup_prompt key v d : validator_no_dup v -> no_dup (_prompt key v d).
Proof.
  intros Hv s e; unfold _prompt.
  generalize (st_input s) as lines; intro lines.
  enough (H : forall r rest t, prompt_loop (prompt_cls_of key) key v d (r_fs (st_repo s)) lines
                               = (r, rest, t) -> r = Raise e -> is_dup e = false).
  { destruct (prompt_loop _ _ _ _ _ _) as [[r rest] t] eqn:E; simpl; eauto. }
  induction lines as [|l ls IH]; intros r rest t Hl Hr; simpl in Hl.
  - inversion Hl; subst; inversion H0; reflexivity.
  - destruct (rich_response _ _ l) as [msg|value].
    + destruct (prompt_loop _ _ _ _ _ ls) as [[r' rs'] t'] eqn:E.
      inversion Hl; subst; eauto.
    + destruct v as [f|]; [|inversion Hl; subst; discriminate].
      destruct (f key value (r_fs (st_repo s))) as [vr evs] eqn:Ef.
      destruct vr as [|reason|e'].
      * inversion Hl; subst; discriminate.
      * destruct (prompt_loop _ _ _ _ _ ls) as [[r' rs'] t'] eqn:E.
        inversion Hl; subst; eauto.
      * inversion Hl; subst. inversion H0; subst.
        eapply Hv; [reflexivity|]. rewrite Ef; reflexivity.
Qed.

Create HintDb nodup.
#[local] Hint Resolve no_dup_mret no_dup_write no_dup_deref no_dup_alloc no_dup_pop
  no_dup_get_repo no_dup_put_repo no_dup_loadd no_dup_confirm no_dup_prompt
  validate_prompts_input_no_dup validator_no_dup_none : nodup.

Ltac nodup_step :=
  match goal with
  | |- @no_dup _ (bind _ _) =>
      apply no_dup_bind; [auto with nodup|intro]
  | |- @no_dup _ (raise _) => apply no_dup_raise; reflexivity
  | |- @no_dup _ (if ?b then _ else _) => destruct b
  | |- @no_dup _ (match ?x with _ => _ end) => destruct x
  end.

Ltac nodup := repeat (nodup_step || (progress auto with nodup)).

Lemma no_dup_prompts_from keys d v acc :
  validator_no_dup v -> no_dup (prompts_from keys d v acc).
Proof.
  intro Hv; revert acc; induction keys as [|k ks IH]; intro acc; simpl; nodup.
Qed.

#[local] Hint Resolve no_dup_prompts_from : nodup.

Lemma no_dup_init_interactive name d p v t l :
  validator_no_dup v -> no_dup (init_interactive name d p v t l).
Proof.
  intro Hv; unfold init_interactive, session_answers, _prompts, or_empty; nodup.
Qed.

#[local] Hint Resolve no_dup_init_interactive : nodup.

Lemma no_dup_or_empty o : no_dup (or_empty o).
Proof. unfold or_empty; nodup. Qed.

#[local] Hint Resolve no_dup_or_empty : nodup.

Lemma no_dup_init_context name t d o i : no_dup (init_context name t d o i).
Proof. unfold init_context; nodup. Qed.

Lemma no_dup_init_commit i st p : no_dup (init_commit i st p).
Proof. unfold init_commit, commit_unit; nodup. Qed.

Lemma dup_only_if_bind {A B} P (m : M A) (k : A -> M B) :
  stable same_repo m -> dup_only_if P m -> (forall a, dup_only_if P (k a)) ->
  dup_only_if P (bind m k).
Proof.
  intros Hs Hm Hk s e; unfold bind; specialize (Hs s); specialize (Hm s).
  destruct (m s) as [[a|e'] s'] eqn:E; simpl in *.
  - intros H1 H2; rewrite <- Hs; exact (Hk a s' e H1 H2).
  - intros H1 H2; inversion H1; subst; exact (Hm e eq_refl H2).
Qed.

Lemma dup_only_if_no_dup {A} P (m : M A) : no_dup m -> dup_only_if P m.
Proof. intros H s e He Hd; rewrite (H s e He) in Hd; discriminate. Qed.

Lemma dup_only_if_get_repo {A} P (k : Repo -> M A) :
  (forall r, dup_only_if (fun _ => P r) (k r)) -> dup_only_if P (r <- get_repo ;; k r).
Proof. intros H s e He Hd; exact (H (st_repo s) s e He Hd). Qed.

Lemma check_dup_only_if name force :
  dup_only_if (dup_cond name force) (_check_stage_exists name force).
Proof.
  intros s e; unfold _check_stage_exists, bind, get_repo; simpl.
  destruct force, (stage_exists (r_dvcyaml (st_repo s)) name) eqn:E;
    simpl; intros H; inversion H; subst; intros _; split; auto.
Qed.

Lemma init_dup_only_if name t d o i force :
  dup_only_if (dup_cond (stage_name name t) force) (init name t d o i force).
Proof.
  unfold init, init_stage.
  apply dup_only_if_bind; [apply init_stage_same_repo| |intro a;
    apply dup_only_if_no_dup, no_dup_init_commit].
  apply dup_only_if_bind; [auto with frame|apply check_dup_only_if|intros []].
  apply dup_only_if_bind; [auto with frame|apply dup_only_if_no_dup, no_dup_init_context|intro ctx].
  destruct (get "cmd" ctx) as [cmd|];
    [|apply dup_only_if_no_dup; apply no_dup_raise; reflexivity].
  apply dup_only_if_get_repo; intro r.
  apply dup_only_if_bind; [frame|apply dup_only_if_no_dup; nodup|intro kv].
  apply dup_only_if_bind; [auto with frame| |intro st;
    apply dup_only_if_no_dup; nodup].
  intros s e; unfold lift, stage_create; simpl.
  destruct (negb force && stage_exists (r_dvcyaml r) (stage_name name t)) eqn:E;
    intro H; inversion H; subst; intros _.
  apply andb_true_iff in E as [E1 E2]; destruct force; [discriminate|].
  split; auto.
Qed.

(** * The claims *)

(** C9: [init] raises a duplicate-stage error if and only if a stage
    with the requested name ([name or type]) already exists in [dvc.yaml]
    and [force] is false; when [force] is true or no such stage exists,
    the pre-check [_check_stage_exists] passes. *)
Theorem init_duplicate_stage_iff name type_ defaults overrides interactive force s :
  ((exists msg s', init name type_ defaults overrides interactive force s
                   = (Raise (DuplicateStageName msg), s'))
   <-> (force = false
        /\ stage_exists (r_dvcyaml (st_repo s)) (stage_name name type_) = true))
  /\ (fst (_check_stage_exists (stage_name name type_) force s) = Ok tt
      <-> ~ (force = false
             /\ stage_exists (r_dvcyaml (st_repo s)) (stage_name name type_) = true)).
Proof.
  split; [split|].
  - intros [msg [s' H]].
    apply (init_dup_only_if name type_ defaults overrides interactive force s
             (DuplicateStageName msg)); [rewrite H; reflexivity|reflexivity].
  - intros [Hf He]; subst force.
    exists (duplicate_msg (stage_name name type_)), s.
    unfold init, init_stage, _check_stage_exists, bind, get_repo, raise; simpl.
    rewrite He; reflexivity.
  - unfold _check_stage_exists, bind, get_repo, raise, mret; simpl.
    destruct force, (stage_exists (r_dvcyaml (st_repo s)) (stage_name name type_));
      simpl; split; intuition (try discriminate).
Qed.

(** ** C4 *)

(** C4: in an interactive [init] whose operator answers the final
    confirmation with no, [init] raises the cancellation error
    [DvcException "Aborting ..."] and the repository ([dvc.yaml], the
    ignored paths, the paths staged in git, the workspace) is exactly as
    it was before the call. *)
Theorem init_declined_commits_nothing name type_ defaults overrides force s sp s1 :
  init_stage name type_ defaults overrides true force s = (Ok sp, s1) ->
  fst (fst (confirm_loop "Do you want to add the above contents to dvc.yaml?"
                         (st_input s1))) = Ok false ->
  exists s', init name type_ defaults overrides true force s
             = (Raise (DvcException "Aborting ..."), s')
             /\ st_repo s' = st_repo s.
Proof.
  intros Hstage Hno.
  pose proof (init_stage_same_repo name type_ defaults overrides true force s) as Hrepo.
  unfold same_repo in Hrepo; rewrite Hstage in Hrepo; simpl in Hrepo.
  unfold init, bind at 1; rewrite Hstage.
  unfold init_commit, bind, ConfirmationPrompt_ask; simpl.
  destruct (confirm_loop _ (st_input s1)) as [[r rest] t]; simpl in Hno; subst r.
  eexists; split; [reflexivity|exact Hrepo].
Qed.

(** ** C10 *)

Lemma or_empty_ok o s :
  exists ref s', or_empty o s = (Ok ref, s')
  /\ forall r d, heap_lookup (st_heap s) r = Some d -> heap_lookup (st_heap s') r = Some d.
Proof.
  destruct o as [r|]; unfold or_empty, bind, deref, alloc, mret; simpl.
  - destruct (heap_lookup (st_heap s) r) as [[|kv d]|]; do 2 eexists; (split; [reflexivity|]);
      simpl; intros; auto using heap_lookup_app.
  - do 2 eexists; split; [reflexivity|]; simpl; intros; auto using heap_lookup_app.
Qed.

Lemma or_empty_keep r s d :
  heap_lookup (st_heap s) r = Some d -> d <> [] -> or_empty (Some r) s = (Ok r, s).
Proof.
  intros H Hne; unfold or_empty, bind, deref; simpl; rewrite H.
  destruct d; [congruence|reflexivity].
Qed.

Lemma lacks_shrinks r k s s' : lacks r k s -> heap_shrinks s s' -> lacks r k s'.
Proof.
  intros [d [Hd Hk]] Hs; destruct (Hs r d Hd) as [d' [Hd' Hsub]].
  exists d'; split; [exact Hd'|].
  destruct (mem k d') eqn:E; [rewrite (Hsub k E) in Hk; discriminate|reflexivity].
Qed.

Lemma lacks_bind {A B} r k (m : M A) (f : A -> M B) s :
  lacks r k (snd (m s)) -> (forall a, stable heap_shrinks (f a)) ->
  lacks r k (snd (bind m f s)).
Proof.
  intros H Hf; unfold bind; destruct (m s) as [[a|e] s'] eqn:E; simpl in *;
    [eapply lacks_shrinks; [exact H|apply Hf]|exact H].
Qed.

Lemma lacks_bind_ok {A B} r k (m : M A) (f : A -> M B) s a s1 :
  m s = (Ok a, s1) -> lacks r k (snd (f a s1)) -> lacks r k (snd (bind m f s)).
Proof. intros H1 H2; unfold bind; rewrite H1; exact H2. Qed.

Lemma lacks_pop r k s d :
  heap_lookup (st_heap s) r = Some d -> lacks r k (snd (pop r k s)).
Proof.
  intro H; destruct (pop_removes r k s d H) as [d' [H1 [H2 _]]]; exists d'; auto.
Qed.

(** [init] up to the merged context, seen from the state the pre-check
    leaves: a property of the heap established there and kept by shrinking
    holds at the end of [init]. *)
Lemma lacks_init_from_context r k name type_ defaults overrides interactive force s :
  ~ dup_cond (stage_name name type_) force (st_repo s) ->
  lacks r k (snd (init_context (stage_name name type_) type_ defaults overrides
                   interactive s)) ->
  lacks r k (snd (init name type_ defaults overrides interactive force s)).
Proof.
  intros Hnd H. unfold init. apply lacks_bind; [|intro; auto with frame].
  unfold init_stage.
  apply lacks_bind_ok with (a := tt) (s1 := s).
  { unfold _check_stage_exists, bind, get_repo; simpl.
    unfold dup_cond in Hnd.
    destruct force, (stage_exists (r_dvcyaml (st_repo s)) (stage_name name type_));
      simpl; tauto. }
  apply lacks_bind; [exact H|intro ctx]. frame.
Qed.

(** C10 (amended): once the duplicate-stage pre-check has passed, [init]
    mutates the caller's dicts instead of copying them: in an interactive
    call the key ["cmd"] is gone from the caller's overrides dict (when
    one is given), and in a non-interactive call the keys ["metrics"] and
    ["plots"] (type ["live"]) or ["live"] (any other type) are gone from
    the caller's defaults dict (when one is given), whatever the rest of
    the call does.  When the pre-check raises, the call changes nothing
    at all, so neither dict is touched. *)
Theorem init_mutates_caller_dicts name type_ defaults overrides interactive force s :
  let s' := snd (init name type_ defaults overrides interactive force s) in
  (~ dup_cond (stage_name name type_) force (st_repo s) ->
     (interactive = true -> forall r d, overrides = Some r ->
        heap_lookup (st_heap s) r = Some d -> lacks r "cmd" s')
     /\ (interactive = false -> forall dr dd, defaults = Some dr ->
        heap_lookup (st_heap s) dr = Some dd ->
        if String.eqb type_ "live" then lacks dr "metrics" s' /\ lacks dr "plots" s'
        else lacks dr "live" s'))
  /\ (dup_cond (stage_name name type_) force (st_repo s) -> s' = s).
Proof.
  intro s'; split.
  2:{ intros [Hf He]. unfold s', init, init_stage; cbv zeta.
      assert (E : _check_stage_exists (stage_name name type_) force s
                  = (Raise (DuplicateStageName (duplicate_msg (stage_name name type_))), s)).
      { unfold _check_stage_exists, bind, get_repo; simpl; rewrite Hf, He; reflexivity. }
      unfold bind; rewrite E; reflexivity. }
  intro Hnd; split.
  - intros -> r d Ho Hd; subst overrides.
    destruct d as [|kv d0].
    { eapply lacks_shrinks; [exists []; split; [exact Hd|reflexivity]|apply init_shrinks]. }
    apply lacks_init_from_context; [exact Hnd|].
    unfold init_context.
    destruct (or_empty_ok defaults s) as [dref [sa [Ea Ha]]].
    apply lacks_bind_ok with (a := dref) (s1 := sa); [exact Ea|].
    apply lacks_bind_ok with (a := r) (s1 := sa);
      [apply (or_empty_keep r sa (kv :: d0)); [apply Ha; exact Hd|discriminate]|].
    simpl. apply lacks_bind; [|intro; frame].
    unfold init_interactive. apply lacks_bind; [|intro; frame].
    apply (lacks_pop r "cmd" sa (kv :: d0)); apply Ha; exact Hd.
  - intros -> dr dd Hdr Hdd; subst defaults.
    destruct dd as [|kv dd0].
    { assert (Hl : forall k, lacks dr k s').
      { intro k; eapply lacks_shrinks; [exists []; split; [exact Hdd|reflexivity]|apply init_shrinks]. }
      destruct (String.eqb type_ "live"); auto. }
    assert (Hgen : forall k (m : M unit),
               (if String.eqb type_ "live"
                then pop dr "metrics" ;; pop dr "plots" ;; mret tt
                else pop dr "live" ;; mret tt) = m ->
               (forall s0, heap_lookup (st_heap s0) dr = Some (kv :: dd0) ->
                           lacks dr k (snd (m s0))) ->
               lacks dr k s').
    { intros k m Heq Hm. apply lacks_init_from_context; [exact Hnd|].
      unfold init_context.
      apply lacks_bind_ok with (a := dr) (s1 := s);
        [apply (or_empty_keep dr s (kv :: dd0)); [exact Hdd|discriminate]|].
      destruct (or_empty_ok overrides s) as [oref [sb [Eb Hb]]].
      apply lacks_bind_ok with (a := oref) (s1 := sb); [exact Eb|].
      simpl. apply lacks_bind; [|intro; frame].
      apply lacks_bind; [|intro; frame]. rewrite Heq. apply Hm, Hb, Hdd. }
    destruct (String.eqb type_ "live").
    + split.
      * apply (Hgen "metrics" _ eq_refl).
        intros s0 H0. apply lacks_bind; [|intro; frame]. eapply lacks_pop; exact H0.
      * apply (Hgen "plots" _ eq_refl).
        intros s0 H0. apply lacks_bind_ok with (a := get "metrics" (kv :: dd0))
                                               (s1 := snd (pop dr "metrics" s0)).
        { unfold pop, bind, deref; simpl; rewrite H0; reflexivity. }
        apply lacks_bind; [|intro; frame].
        destruct (pop_removes dr "metrics" s0 _ H0) as [d1 [H1 _]].
        eapply lacks_pop; exact H1.
    + apply (Hgen "live" _ eq_refl).
      intros s0 H0. apply lacks_bind; [|intro; frame]. eapply lacks_pop; exact H0.
Qed.

Lemma init_declined_commits_nothing_witness :
  exists s', init None "default" None (Some 1) true false
               (w_state ["n"; "n"; "n"; "n"; "n"])
             = (Raise (DvcException "Aborting ..."), s')
             /\ st_repo s' = st_repo (w_state ["n"; "n"; "n"; "n"; "n"]).
Proof. eapply init_declined_commits_nothing; cbv; reflexivity. Defined.

(** C10, as first stated, fails when the pre-check raises: the interactive
    call below stops on the duplicate stage before touching the overrides,
    which still hold ["cmd"]. *)
Lemma init_keeps_cmd_on_duplicate :
  let s := mkSt [] [] [(1, w_overrides)] w_repo_dup in
  fst (init None "default" None (Some 1) true false s)
    = Raise (DuplicateStageName (duplicate_msg "default"))
  /\ heap_lookup (st_heap (snd (init None "default" None (Some 1) true false s))) 1
     = Some w_overrides
  /\ mem "cmd" w_overrides = true.
Proof. vm_compute. repeat split. Qed.

Lemma init_mutates_caller_dicts_witness :
  lacks 1 "cmd" (snd (init None "default" None (Some 1) true false
                        (w_state ["n"; "n"; "n"; "n"; "y"])))
  /\ lacks 2 "live" (snd (init None "default" (Some 2) None false false
                          (mkSt [] [] [(2, [("cmd", "python train.py"); ("live", "dvclive")])]
                                w_repo)))
  /\ snd (init None "default" None (Some 1) true false (mkSt [] [] [(1, w_overrides)] w_repo_dup))
     = mkSt [] [] [(1, w_overrides)] w_repo_dup.
Proof.
  split; [|split].
  - apply (proj1 (proj1 (init_mutates_caller_dicts None "default" None (Some 1) true false
                           (w_state ["n"; "n"; "n"; "n"; "y"]))
                   ltac:(vm_compute; intros [H1 H2]; discriminate H2))
             eq_refl 1 w_overrides eq_refl eq_refl).
  - exact (proj2 (proj1 (init_mutates_caller_dicts None "default" (Some 2) None false false
                           (mkSt [] [] [(2, [("cmd", "python train.py"); ("live", "dvclive")])]
                                 w_repo))
                   ltac:(vm_compute; intros [H1 H2]; discriminate H2))
             eq_refl 2 [("cmd", "python train.py"); ("live", "dvclive")] eq_refl eq_refl).
  - apply (proj2 (init_mutates_caller_dicts None "default" None (Some 1) true false
                    (mkSt [] [] [(1, w_overrides)] w_repo_dup))).
    split; reflexivity.
Defined.

(** ** C1 *)

Lemma lremove_all {V} (d : dict V) seq :
  (forall k, In k seq -> mem k d = true) -> lremove d seq = [].
Proof.
  unfold lremove; induction seq as [|k seq IH]; intro H; simpl; [reflexivity|].
  rewrite (H k (or_introl eq_refl)); simpl; apply IH; intros; apply H; right; auto.
Qed.

(** C1 (amended): when the overrides already hold ["cmd"] and every
    primary key and every secondary key of the output mode, the session
    asks nothing and reads no input; what it returns is not empty but the
    command it popped from the overrides: [{"cmd": c}] ([{}] when [c] is
    the empty string). *)
Theorem session_all_supplied name dref p validator show_tree live s d c :
  heap_lookup (st_heap s) p = Some d ->
  get "cmd" d = Some c ->
  forallb (fun k => mem k d) (primary_keys ++ secondary_keys live) = true ->
  let '(r, s') := init_interactive name dref p validator show_tree live s in
  r = Ok (if String.eqb c "" then [] else [("cmd", c)])
  /\ st_input s' = st_input s
  /\ exists t, st_trace s' = (st_trace s ++ t)%list /\ asked t = [].
Proof.
  intros Hd Hc Hb.
  assert (Hall : forall k, In k primary_keys \/ In k (secondary_keys live) -> mem k d = true).
  { intros k Hk; rewrite forallb_forall in Hb; apply Hb, in_or_app; exact Hk. }
  assert (Hdel : forall seq, (forall k, In k seq -> In k primary_keys \/ In k (secondary_keys live)) ->
                 lremove (delitem "cmd" d) seq = []).
  { intros seq Hseq; apply lremove_all; intros k Hk.
    rewrite mem_delitem. destruct (String.eqb_spec k "cmd") as [->|_].
    - exfalso. destruct (Hseq _ Hk) as [H|H]; [|destruct live]; simpl in H; intuition discriminate.
    - apply Hall, Hseq, Hk. }
  unfold init_interactive, pop, bind, deref; simpl.
  rewrite heap_lookup_set, Nat.eqb_refl, Hd; simpl.
  assert (Hm : forall k, In k primary_keys -> mem k (delitem "cmd" d) = true).
  { intros k Hk; rewrite mem_delitem.
    destruct (String.eqb_spec k "cmd") as [->|_];
      [simpl in Hk; intuition discriminate|apply Hall; auto]. }
  rewrite (Hm "code"), (Hm "data"), (Hm "models"), (Hm "params")
    by (simpl; auto).
  rewrite (Hdel (secondary_keys live)) by auto.
  rewrite Hc; simpl.
  destruct (String.eqb c "") eqn:Ec; simpl.
  - split; [reflexivity|split; [reflexivity|]].
    exists []; split; [symmetry; apply app_nil_r|reflexivity].
  - unfold session_answers, bind, write, deref, truthy; simpl; rewrite Ec; simpl.
    match goal with |- context [if ?b then _ else _] => destruct b end;
      simpl; rewrite ?Ec; (split; [reflexivity|split; [reflexivity|]]);
      eexists; (split; [rewrite <- !app_assoc; reflexivity|reflexivity]).
Qed.

Lemma session_all_supplied_witness :
  let '(r, s') := init_interactive "default" 2 1 (Some validate_prompts_input)
                    true false w_full_state in
  r = Ok (if String.eqb "python train.py" "" then []
          else [("cmd", "python train.py")])
  /\ st_input s' = st_input w_full_state
  /\ exists t, st_trace s' = (st_trace w_full_state ++ t)%list /\ asked t = [].
Proof.
  apply (session_all_supplied "default" 2 1 (Some validate_prompts_input) true false
           w_full_state w_full_overrides "python train.py"); reflexivity.
Defined.

(** C1, as first stated, fails: with everything supplied the session
    returns the popped command, not an empty mapping. *)
Lemma session_all_supplied_not_empty :
  fst (init_interactive "default" 2 1 (Some validate_prompts_input) true false
         w_full_state) = Ok [("cmd", "python train.py")]
  /\ fst (init_interactive "default" 2 1 (Some validate_prompts_input) true false
            w_full_state) <> Ok [].
Proof. vm_compute. split; [reflexivity|discriminate]. Qed.

(** ** C2 *)

Lemma asked_app t1 t2 : asked (t1 ++ t2) = (asked t1 ++ asked t2)%list.
Proof. unfold asked; apply flat_map_app. Qed.

Lemma quiet_validate : quiet (Some validate_prompts_input).
Proof.
  intros f k val fs H; inversion H; subst; clear H.
  unfold validate_prompts_input.
  destruct val as [v|]; [|reflexivity].
  destruct (String.eqb k "params").
  - destruct (loadd_params fs v) as [_|[]]; reflexivity.
  - destruct (String.eqb k "code" || String.eqb k "data");
      [destruct (path_exists fs v)|]; reflexivity.
Qed.

Lemma prompt_loop_asked cls key v def fs lines a rest t :
  quiet v -> prompt_loop cls key v def fs lines = (Ok a, rest, t) ->
  exists n, asked t = repeat key (S n).
Proof.
  intro Hq; revert a rest t; induction lines as [|l ls IH]; intros a rest t H;
    simpl in H; [discriminate|].
  destruct (rich_response cls def l) as [msg|value].
  - destruct (prompt_loop cls key v def fs ls) as [[r' rs'] t'] eqn:E.
    inversion H; subst. destruct (IH _ _ _ eq_refl) as [n Hn].
    exists (S n); simpl; rewrite Hn; reflexivity.
  - destruct v as [f|]; [|inversion H; subst; exists 0; reflexivity].
    destruct (f key value fs) as [vr evs] eqn:Ef.
    assert (He : asked evs = []).
    { change evs with (snd (vr, evs)); rewrite <- Ef; eapply Hq; reflexivity. }
    destruct vr as [|reason|e].
    + inversion H; subst; exists 0; simpl; rewrite He; reflexivity.
    + destruct (prompt_loop cls key (Some f) def fs ls) as [[r' rs'] t'] eqn:E.
      inversion H; subst. destruct (IH _ _ _ eq_refl) as [n Hn].
      exists (S n); simpl; rewrite asked_app, He; simpl; rewrite Hn; reflexivity.
    + discriminate.
Qed.

Lemma prompts_from_asked keys d v acc s r s' :
  quiet v -> prompts_from keys d v acc s = (Ok r, s') ->
  exists t, st_trace s' = (st_trace s ++ t)%list /\ asks_each keys (asked t).
Proof.
  intro Hq; revert acc s; induction keys as [|k ks IH]; intros acc s H; simpl in H.
  - inversion H; subst; exists []; split; [symmetry; apply app_nil_r|constructor].
  - unfold bind at 1, deref at 1 in H. unfold bind in H.
    unfold _prompt at 1 in H.
    destruct (prompt_loop _ k v _ _ _) as [[r1 rest] t1] eqn:E.
    destruct r1 as [a|e]; [|discriminate].
    destruct (prompt_loop_asked _ _ _ _ _ _ _ _ _ Hq E) as [n Hn].
    destruct (IH _ _ H) as [t2 [Ht2 Ha2]]; simpl in Ht2.
    exists (t1 ++ t2)%list; split; [rewrite Ht2, app_assoc; reflexivity|].
    rewrite asked_app, Hn; constructor; exact Ha2.
Qed.

(** C2 (amended): on the example input (overrides
    [{cmd: "python train.py", code: "src", data: "data"}], default type, so
    no live mode), every completed session asks, in this order, [models],
    then [params], then [metrics], then [plots], each at least once (again
    after a rejected answer) and nothing else: [params] is asked too, since
    only the keys present in the overrides are left out of the primary
    group. *)
Theorem example_asks_params name dref p show_tree s r s' :
  heap_lookup (st_heap s) p = Some w_overrides ->
  init_interactive name dref p (Some validate_prompts_input) show_tree false s = (Ok r, s') ->
  exists t a b c d, st_trace s' = (st_trace s ++ t)%list /\
    asked t = (repeat "models" (S a) ++ repeat "params" (S b)
               ++ repeat "metrics" (S c) ++ repeat "plots" (S d))%list.
Proof.
  intros Hd H.
  unfold init_interactive, pop, bind, deref in H; simpl in H.
  rewrite heap_lookup_set, Nat.eqb_refl, Hd in H; simpl in H.
  unfold session_answers, write, bind in H.
  unfold deref in H; cbn -[_prompts] in H.
  match type of H with context [if ?b then _ else _] => destruct b end;
  cbn -[_prompts] in H;
  destruct (_prompts ["models"; "params"] _ _ _) as [[p1|e1] s1] eqn:E1; try discriminate;
  destruct (_prompts ["metrics"; "plots"] _ _ _) as [[p2|e2] s2] eqn:E2; try discriminate;
  inversion H; subst; clear H;
  destruct (prompts_from_asked _ _ _ _ _ _ _ quiet_validate E1) as [t1 [Ht1 A1]];
  destruct (prompts_from_asked _ _ _ _ _ _ _ quiet_validate E2) as [t2 [Ht2 A2]];
  inversion A1 as [|k1 a ks1 l1 A1' Ek1 El1]; subst;
  inversion A1' as [|k2 b ks2 l2 A1'' Ek2 El2]; subst; inversion A1''; subst;
  inversion A2 as [|k3 c ks3 l3 A2' Ek3 El3]; subst;
  inversion A2' as [|k4 d ks4 l4 A2'' Ek4 El4]; subst; inversion A2''; subst;
  simpl in Ht1, Ht2 |- *; rewrite Ht2, Ht1;
  eexists; exists a, b, c, d; (split; [rewrite <- !app_assoc; reflexivity|]);
  rewrite !asked_app; simpl;
  rewrite <- El1, <- El3, !app_nil_r; simpl; rewrite <- !app_assoc; reflexivity.
Qed.

Lemma example_asks_params_witness :
  exists t a b c d,
    st_trace (snd (init_interactive "default" 2 1 (Some validate_prompts_input)
                     true false (w_state ["n"; "n"; "n"; "n"])))
    = (st_trace (w_state ["n"; "n"; "n"; "n"]) ++ t)%list /\
    asked t = (repeat "models" (S a) ++ repeat "params" (S b)
               ++ repeat "metrics" (S c) ++ repeat "plots" (S d))%list.
Proof.
  apply (example_asks_params "default" 2 1 true (w_state ["n"; "n"; "n"; "n"])
           [("cmd", "python train.py")]
           (snd (init_interactive "default" 2 1 (Some validate_prompts_input)
                   true false (w_state ["n"; "n"; "n"; "n"]))));
    [reflexivity|vm_compute; reflexivity].
Defined.

(** C2, as first stated, fails: on the example input the session asks for
    [models], [params], [metrics] and [plots], so [params] is asked. *)
Lemma example_asks_params_too :
  asked (st_trace (snd (init_interactive "default" 2 1 (Some validate_prompts_input)
                          true false (w_state ["n"; "n"; "n"; "n"]))))
  = ["models"; "params"; "metrics"; "plots"].
Proof. vm_compute; reflexivity. Qed.

(** ** C6, C7, C8: single prompts *)

Lemma get_setitem {V} k k' (v : V) d :
  get k (setitem k' v d) = if String.eqb k k' then Some v else get k d.
Proof.
  induction d as [|[k0 v0] d IH]; simpl.
  - destruct (String.eqb k k'); reflexivity.
  - destruct (String.eqb_spec k' k0) as [->|Hne]; simpl.
    + destruct (String.eqb k k0); reflexivity.
    + rewrite IH. destruct (String.eqb_spec k k0) as [->|]; [|reflexivity].
      destruct (String.eqb_spec k0 k') as [->|]; [congruence|reflexivity].
Qed.

Lemma in_keys_setitem {V} x k (v : V) d :
  In x (keys (setitem k v d)) <-> x = k \/ In x (keys d).
Proof.
  unfold keys; induction d as [|[k0 v0] d IH]; simpl.
  - intuition.
  - destruct (String.eqb_spec k k0) as [->|Hne]; simpl; [intuition|].
    rewrite IH; intuition.
Qed.

Lemma NoDup_setitem {V} k (v : V) d :
  NoDup (keys d) -> NoDup (keys (setitem k v d)).
Proof.
  induction d as [|[k0 v0] d IH]; simpl; intro Hnd.
  - constructor; [simpl; tauto|constructor].
  - inversion Hnd as [|? ? Hnotin Hnd']; subst.
    destruct (String.eqb_spec k k0) as [->|Hne]; [exact Hnd|].
    simpl; constructor; [|apply IH, Hnd'].
    rewrite in_keys_setitem; intros [->|H]; [congruence|contradiction].
Qed.

Lemma NoDup_update {V} (d e : dict V) :
  NoDup (keys d) -> NoDup (keys (update d e)).
Proof.
  unfold update; revert d; induction e as [|[k v] e IH]; intros d Hd; simpl;
    [exact Hd|apply IH, NoDup_setitem, Hd].
Qed.

Lemma get_not_in {V} k (e : dict V) : ~ In k (keys e) -> get k e = None.
Proof.
  unfold keys; induction e as [|[k0 v0] e IH]; simpl; intro H; [reflexivity|].
  destruct (String.eqb_spec k k0) as [->|]; [exfalso; auto|auto].
Qed.

Lemma get_update {V} k (d e : dict V) :
  NoDup (keys e) ->
  get k (update d e) = match get k e with Some v => Some v | None => get k d end.
Proof.
  unfold update; revert d; induction e as [|[k0 v0] e IH]; intros d Hnd; simpl;
    [reflexivity|].
  inversion Hnd as [|? ? Hnotin Hnd']; subst.
  rewrite IH by exact Hnd'. rewrite get_setitem.
  destruct (String.eqb_spec k k0) as [->|]; [|reflexivity].
  rewrite get_not_in by exact Hnotin; reflexivity.
Qed.

Lemma get_mem_false {V} k (d : dict V) : mem k d = false -> get k d = None.
Proof. unfold mem; destruct (get k d); congruence. Qed.

Lemma strip_empty_line : strip "" = "".
Proof. reflexivity. Qed.

(** What rich hands back to the [cmd] prompt is a non-empty string, or the
    default itself. *)
Lemma rich_required default line x :
  rich_response RequiredPrompt default line = Value x ->
  exists c, x = Some c /\ (c <> "" \/ default = Some "").
Proof.
  unfold rich_response, process_response.
  assert (Hp : process_response RequiredPrompt line = Value x ->
               exists c, x = Some c /\ (c <> "" \/ default = Some "")).
  { unfold process_response. destruct (String.eqb_spec (strip line) "") as [_|Hne];
      [discriminate|]. intro H; inversion H; subst; eauto. }
  unfold process_response in Hp.
  destruct default as [d|]; [|exact Hp].
  destruct (String.eqb line ""); [|exact Hp].
  intro H; inversion H; subst. exists d; split; [reflexivity|].
  destruct (String.eqb_spec d "") as [->|]; auto.
Qed.

Lemma prompt_loop_required v default fs lines x rest t :
  prompt_loop RequiredPrompt "cmd" v default fs lines = (Ok x, rest, t) ->
  exists c, x = Some c /\ (c <> "" \/ default = Some "").
Proof.
  revert rest t; induction lines as [|l ls IH]; intros rest t H; simpl in H;
    [discriminate|].
  destruct (rich_response RequiredPrompt default l) as [msg|value] eqn:Er.
  - destruct (prompt_loop RequiredPrompt "cmd" v default fs ls) as [[r' rs'] t'] eqn:E.
    inversion H; subst; eapply IH; first [exact E | reflexivity].
  - destruct v as [f|]; [|inversion H; subst; eapply rich_required; exact Er].
    destruct (f "cmd" value fs) as [[|reason|e] evs].
    + inversion H; subst; eapply rich_required; exact Er.
    + destruct (prompt_loop RequiredPrompt "cmd" (Some f) default fs ls) as [[r' rs'] t'] eqn:E.
      inversion H; subst; eapply IH; first [exact E | reflexivity].
    + discriminate.
Qed.

Lemma prompt_loop_params_loadable default fs lines w rest t :
  prompt_loop (prompt_cls_of "params") "params" (Some validate_prompts_input)
              default fs lines = (Ok (Some w), rest, t) ->
  exists ks, get w fs = Some (EFile (Some ks)).
Proof.
  revert rest t; induction lines as [|l ls IH]; intros rest t H; simpl in H;
    [discriminate|].
  destruct (rich_response _ default l) as [msg|value].
  - destruct (prompt_loop _ "params" _ default fs ls) as [[r' rs'] t'] eqn:E.
    inversion H; subst; eapply IH; first [exact E | reflexivity].
  - destruct value as [v|]; simpl in H; [|discriminate].
    unfold loadd_params in H.
    destruct (get v fs) as [[|[ks|]]|] eqn:Eg; simpl in H.
    + destruct (prompt_loop _ "params" _ default fs ls) as [[r' rs'] t'] eqn:E.
      inversion H; subst; eapply IH; first [exact E | reflexivity].
    + inversion H; subst; eauto.
    + discriminate.
    + destruct (prompt_loop _ "params" _ default fs ls) as [[r' rs'] t'] eqn:E.
      inversion H; subst; eapply IH; first [exact E | reflexivity].
Qed.

Lemma rich_skip_n default line :
  strip line = "n" -> rich_response SkippablePrompt default line = Value None.
Proof.
  intro Hs.
  assert (Hl : String.eqb line "" = false).
  { destruct (String.eqb_spec line "") as [->|]; [discriminate|reflexivity]. }
  unfold rich_response, process_response; rewrite Hs.
  destruct default; [rewrite Hl|]; reflexivity.
Qed.

Lemma rich_skip_value default line v :
  strip line = v -> v <> "" -> v <> "n" ->
  rich_response SkippablePrompt default line = Value (Some v).
Proof.
  intros Hs Hne Hn.
  assert (Hl : String.eqb line "" = false).
  { destruct (String.eqb_spec line "") as [->|]; [|reflexivity].
    rewrite strip_empty_line in Hs; subst; exfalso; apply Hne; reflexivity. }
  unfold rich_response, process_response; rewrite Hs.
  destruct (String.eqb_spec v "") as [|_]; [contradiction|].
  destruct (String.eqb_spec v "n") as [|_]; [contradiction|].
  destruct default; [rewrite Hl|]; reflexivity.
Qed.

Lemma validate_params_retry v fs reason :
  fst (validate_prompts_input "params" (Some v) fs) = VRetry reason ->
  validate_prompts_input "params" (Some v) fs = (VRetry reason, []).
Proof.
  unfold validate_prompts_input; simpl.
  destruct (loadd_params fs v) as [_|[]]; simpl; intro H; try discriminate;
    inversion H; reflexivity.
Qed.

(** C6: for [params], a path missing from the workspace is a retry with the
    reason "does not exist", a directory a retry with the reason "is a
    directory"; a retried answer is followed by the red reason on the error
    console and the same question again, and any path the prompt finally
    accepts names a loadable parameters file. *)
Theorem params_retry fs default :
  (forall v, get v fs = None ->
     validate_prompts_input "params" (Some v) fs
     = (VRetry ("'" ++ v ++ "' does not exist. "
                ++ "Please retry with an existing parameters file."), []))
  /\ (forall v, get v fs = Some EDir ->
     validate_prompts_input "params" (Some v) fs
     = (VRetry ("'" ++ v ++ "' is a directory. "
                ++ "Please retry with an existing parameters file."), []))
  /\ (forall line rest v reason,
        strip line = v -> v <> "" -> v <> "n" ->
        fst (validate_prompts_input "params" (Some v) fs) = VRetry reason ->
        prompt_loop (prompt_cls_of "params") "params" (Some validate_prompts_input)
                    default fs (line :: rest)
        = (let '(r, rest', t) :=
             prompt_loop (prompt_cls_of "params") "params"
                         (Some validate_prompts_input) default fs rest in
           (r, rest', EvAsk Stderr "params"
                        :: EvWrite Stderr ("[red]" ++ reason ++ "[/]") :: t)))
  /\ (forall lines w rest t,
        prompt_loop (prompt_cls_of "params") "params" (Some validate_prompts_input)
                    default fs lines = (Ok (Some w), rest, t) ->
        exists ks, get w fs = Some (EFile (Some ks))).
Proof.
  split; [|split; [|split]].
  - intros v Hg; unfold validate_prompts_input, loadd_params; simpl; rewrite Hg;
      reflexivity.
  - intros v Hg; unfold validate_prompts_input, loadd_params; simpl; rewrite Hg;
      reflexivity.
  - intros line rest v reason Hs Hne Hn Hv.
    cbn [prompt_loop prompt_cls_of String.eqb Ascii.eqb Bool.eqb].
    rewrite (rich_skip_value default line v Hs Hne Hn).
    rewrite (validate_params_retry v fs reason Hv).
    destruct (prompt_loop _ "params" _ default fs rest) as [[r' rs'] t'];
      reflexivity.
  - apply prompt_loop_params_loadable.
Qed.

(** C7 (amended): at the [cmd] prompt a blank answer (empty or only
    whitespace) is refused with "Response required" and the question asked
    again, without calling the validator, except that an empty answer when
    [cmd] has a default returns that default at once (rich's rule for
    defaults); so the value finally returned for [cmd] is a non-empty
    string unless the default itself is the empty string. *)
Theorem cmd_response_required v fs default :
  (forall line rest, strip line = "" -> (default = None \/ line <> "") ->
     prompt_loop (prompt_cls_of "cmd") "cmd" v default fs (line :: rest)
     = (let '(r, rest', t) := prompt_loop (prompt_cls_of "cmd") "cmd" v default fs rest in
        (r, rest', EvAsk Stderr "cmd" :: EvWrite Stderr response_required :: t)))
  /\ (forall lines x rest t,
        prompt_loop (prompt_cls_of "cmd") "cmd" v default fs lines = (Ok x, rest, t) ->
        exists c, x = Some c /\ (c <> "" \/ default = Some "")).
Proof.
  split.
  - intros line rest Hs Hd.
    assert (Hr : rich_response RequiredPrompt default line = Invalid response_required).
    { unfold rich_response, process_response; rewrite Hs; simpl.
      destruct Hd as [->|Hne]; [reflexivity|].
      destruct default; [|reflexivity].
      destruct (String.eqb_spec line "") as [|_]; [contradiction|reflexivity]. }
    cbn [prompt_loop prompt_cls_of String.eqb Ascii.eqb Bool.eqb]; rewrite Hr.
    destruct (prompt_loop RequiredPrompt "cmd" v default fs rest) as [[r' rs'] t'];
      reflexivity.
  - apply prompt_loop_required.
Qed.

(** C8: a skippable key answered with "n" (after rich strips the answer)
    yields no value, after one question and without touching the rest of
    the input; and a key whose answer is [None] in the dict the session
    builds, [ret.update(primary answers); ret.update(secondary answers)],
    is pruned by [compact]. *)
Theorem skip_answer_absent :
  (forall key default fs line rest, key <> "cmd" -> strip line = "n" ->
     prompt_loop (prompt_cls_of key) key (Some validate_prompts_input) default fs
                 (line :: rest)
     = (Ok None, rest, [EvAsk Stderr key]))
  /\ (forall (p0 p1 p2 : dict (option string)) k,
        NoDup (keys p0) -> NoDup (keys p1) -> NoDup (keys p2) ->
        (get k p1 = Some None /\ mem k p2 = false) \/ get k p2 = Some None ->
        mem k (compact (update (update p0 p1) p2)) = false).
Proof.
  split.
  - intros key default fs line rest Hk Hs.
    unfold prompt_cls_of.
    destruct (String.eqb_spec key "cmd") as [|_]; [contradiction|].
    cbn [prompt_loop]; rewrite (rich_skip_n default line Hs); reflexivity.
  - intros p0 p1 p2 k H0 H1 H2 Hk.
    apply compact_drops_none; [apply NoDup_update, NoDup_update, H0|].
    rewrite get_update by exact H2.
    destruct Hk as [[Hk1 Hk2]|Hk2].
    + rewrite (get_mem_false _ _ Hk2), get_update by exact H1; rewrite Hk1; reflexivity.
    + rewrite Hk2; reflexivity.
Qed.

Lemma params_retry_witness :
  validate_prompts_input "params" (Some "missing.yaml") (r_fs w_repo)
  = (VRetry ("'" ++ "missing.yaml" ++ "' does not exist. "
             ++ "Please retry with an existing parameters file."), [])
  /\ validate_prompts_input "params" (Some "src") (r_fs w_repo)
  = (VRetry ("'" ++ "src" ++ "' is a directory. "
             ++ "Please retry with an existing parameters file."), [])
  /\ prompt_loop (prompt_cls_of "params") "params" (Some validate_prompts_input)
                 None (r_fs w_repo) ["src"; "params.yaml"]
  = (let '(r, rest', t) :=
       prompt_loop (prompt_cls_of "params") "params" (Some validate_prompts_input)
                   None (r_fs w_repo) ["params.yaml"] in
     (r, rest', EvAsk Stderr "params"
                  :: EvWrite Stderr ("[red]" ++ ("'" ++ "src" ++ "' is a directory. "
                        ++ "Please retry with an existing parameters file.") ++ "[/]")
                  :: t))
  /\ exists ks, get "params.yaml" (r_fs w_repo) = Some (EFile (Some ks)).
Proof.
  destruct (params_retry (r_fs w_repo) None) as [A [B [C D]]].
  split; [apply A; reflexivity|].
  split; [apply B; reflexivity|].
  split; [apply (C "src" ["params.yaml"] "src"); [reflexivity|discriminate|discriminate|reflexivity]|].
  apply (D ["params.yaml"] "params.yaml" [] [EvAsk Stderr "params"]); reflexivity.
Defined.

Lemma cmd_response_required_witness :
  prompt_loop (prompt_cls_of "cmd") "cmd" None None [] ["  "; "python train.py"]
  = (let '(r, rest', t) :=
       prompt_loop (prompt_cls_of "cmd") "cmd" None None [] ["python train.py"] in
     (r, rest', EvAsk Stderr "cmd" :: EvWrite Stderr response_required :: t))
  /\ exists c, Some "python train.py" = Some c /\ (c <> "" \/ @None string = Some "").
Proof.
  destruct (cmd_response_required None [] None) as [A B].
  split; [apply A; [reflexivity|left; reflexivity]|].
  apply (B ["python train.py"] (Some "python train.py") [] [EvAsk Stderr "cmd"]);
    reflexivity.
Defined.

(** C7, as first stated, fails: when [cmd] has a default, an empty answer
    is accepted at once, with no "Response required" and no second
    question; and an empty default makes [cmd] the empty string. *)
Lemma cmd_empty_takes_default :
  prompt_loop (prompt_cls_of "cmd") "cmd" None (Some "python train.py") [] [""]
  = (Ok (Some "python train.py"), [], [EvAsk Stderr "cmd"])
  /\ prompt_loop (prompt_cls_of "cmd") "cmd" None (Some "") [] [""]
  = (Ok (Some ""), [], [EvAsk Stderr "cmd"]).
Proof. split; reflexivity. Qed.

Lemma skip_answer_absent_witness :
  prompt_loop (prompt_cls_of "models") "models" (Some validate_prompts_input)
              (Some "model.pkl") (r_fs w_repo) [" n "; "rest"]
  = (Ok None, ["rest"], [EvAsk Stderr "models"])
  /\ mem "models" (compact (update (update [("cmd", Some "python train.py")]
                                           [("models", None); ("params", Some "params.yaml")])
                                   [("metrics", None); ("plots", Some "plots")])) = false.
Proof.
  destruct skip_answer_absent as [A B].
  split; [apply A; [discriminate|reflexivity]|].
  apply B;
    [repeat constructor; simpl; intuition discriminate
    |repeat constructor; simpl; intuition discriminate
    |repeat constructor; simpl; intuition discriminate
    |left; split; reflexivity].
Defined.

(** ** C5 *)

Lemma returns_bind {A B} (P : A -> Prop) (Q : B -> Prop) (m : M A) (k : A -> M B) :
  returns P m -> (forall a, P a -> returns Q (k a)) -> returns Q (bind m k).
Proof.
  intros Hm Hk s b s' H; unfold bind in H.
  destruct (m s) as [[a|e] s1] eqn:E; [|discriminate].
  exact (Hk a (Hm _ _ _ E) _ _ _ H).
Qed.

Lemma returns_any {A} (m : M A) : returns (fun _ => True) m.
Proof. intros s a s' _; exact I. Qed.

Lemma returns_mret {A} (P : A -> Prop) (a : A) : P a -> returns P (mret a).
Proof. intros Ha s b s' H; inversion H; subst; exact Ha. Qed.

Lemma bind_ok {A B} (m : M A) (k : A -> M B) s a s1 :
  m s = (Ok a, s1) -> bind m k s = k a s1.
Proof. intro H; unfold bind; rewrite H; reflexivity. Qed.

Lemma prompts_from_keys keys d v acc :
  returns (fun r => forall k, mem k r = true -> mem k acc = true \/ In k keys)
          (prompts_from keys d v acc).
Proof.
  revert acc; induction keys as [|key ks IH]; intro acc; simpl.
  - apply returns_mret; auto.
  - apply returns_bind with (P := fun _ => True); [apply returns_any|intros d0 _].
    apply returns_bind with (P := fun _ => True); [apply returns_any|intros a _].
    intros s r s' H k Hk.
    destruct (IH _ _ _ _ H k Hk) as [H1|H1]; [|auto].
    rewrite mem_setitem in H1.
    destruct (String.eqb_spec k key) as [->|_]; [auto|simpl in H1; auto].
Qed.

Lemma session_answers_keys name d p v t l c primary secondary :
  returns (fun r => forall k, mem k r = true ->
             k = "cmd" \/ In k primary \/ In k secondary)
          (session_answers name d p v t l c primary secondary).
Proof.
  unfold session_answers, _prompts.
  apply returns_bind with (P := fun _ => True); [apply returns_any|intros _ _].
  apply returns_bind with (P := fun r => forall k, mem k r = true -> k = "cmd").
  { destruct (negb (truthy c)).
    - apply (returns_bind _ _ _ _ (prompts_from_keys _ _ _ _)); intros r Hr.
      apply returns_bind with (P := fun _ => True); [apply returns_any|intros _ _].
      apply returns_mret; intros k Hk.
      rewrite mem_update, mem_nil in Hk; simpl in Hk.
      destruct (Hr k Hk) as [H|[H|[]]]; [discriminate|auto].
    - apply returns_mret; intros k Hk.
      rewrite mem_update, mem_nil, mem_cons, mem_nil in Hk; simpl in Hk.
      rewrite orb_false_r in Hk; apply String.eqb_eq; exact Hk. }
  intros ret Hret; cbv zeta.
  do 5 (apply returns_bind with (P := fun _ => True); [apply returns_any|intros ? _]).
  apply (returns_bind _ _ _ _ (prompts_from_keys _ _ _ _)); intros p1 Hp1.
  apply (returns_bind _ _ _ _ (prompts_from_keys _ _ _ _)); intros p2 Hp2.
  apply returns_mret; intros k Hk.
  rewrite !mem_update in Hk.
  destruct (mem k ret) eqn:E0; [left; auto|].
  destruct (mem k p1) eqn:E1.
  - destruct (Hp1 k E1) as [H|H]; [discriminate|auto].
  - destruct (Hp2 k Hk) as [H|H]; [discriminate|auto].
Qed.

Lemma in_lremove {V} (d : dict V) seq k : In k (lremove d seq) -> In k seq.
Proof. unfold lremove; rewrite filter_In; tauto. Qed.

(** The session only ever returns [cmd] and keys of the two groups. *)
Lemma init_interactive_keys name d p v t live :
  returns (fun r => forall k, mem k r = true ->
             k = "cmd" \/ In k primary_keys \/ In k (secondary_keys live))
          (init_interactive name d p v t live).
Proof.
  unfold init_interactive.
  apply returns_bind with (P := fun _ => True); [apply returns_any|intros command _].
  apply returns_bind with (P := fun _ => True); [apply returns_any|intros prov _].
  cbv zeta.
  destruct (negb _); [apply returns_mret; intros k Hk; discriminate|].
  apply (returns_bind _ _ _ _ (session_answers_keys _ _ _ _ _ _ _ _ _)); intros ret Hret.
  apply returns_mret; intros k Hk.
  destruct (Hret k (mem_compact _ _ Hk)) as [H|[H|H]]; [auto| |];
    apply in_lremove in H; auto.
Qed.

Lemma or_empty_origin o s r s' :
  or_empty o s = (Ok r, s') ->
  (forall r0 d0, heap_lookup (st_heap s) r0 = Some d0 ->
                 heap_lookup (st_heap s') r0 = Some d0)
  /\ (forall r0 d0, heap_lookup (st_heap s') r0 = Some d0 ->
                    heap_lookup (st_heap s) r0 = Some d0 \/ d0 = [])
  /\ ((o = Some r /\ exists d, heap_lookup (st_heap s) r = Some d /\ d <> [])
      \/ heap_lookup (st_heap s') r = Some []).
Proof.
  assert (Halloc : forall s, alloc [] s = (Ok r, s') ->
            (forall r0 d0, heap_lookup (st_heap s) r0 = Some d0 ->
                           heap_lookup (st_heap s') r0 = Some d0)
            /\ (forall r0 d0, heap_lookup (st_heap s') r0 = Some d0 ->
                              heap_lookup (st_heap s) r0 = Some d0 \/ d0 = [])
            /\ heap_lookup (st_heap s') r = Some []).
  { intros s0 H; unfold alloc in H; inversion H; subst; simpl.
    split; [intros; apply heap_lookup_app; auto|split].
    - intros r0 d0 Hl.
      destruct (heap_lookup (st_heap s0) r0) as [d1|] eqn:E.
      + rewrite (heap_lookup_app _ _ _ _ E) in Hl; left; congruence.
      + rewrite heap_lookup_app_none in Hl by exact E; simpl in Hl.
        destruct (Nat.eqb r0 _); [inversion Hl; auto|discriminate].
    - rewrite heap_lookup_app_none by apply heap_lookup_fresh; simpl.
      rewrite Nat.eqb_refl; reflexivity. }
  destruct o as [r1|]; unfold or_empty, bind, deref; simpl.
  - destruct (heap_lookup (st_heap s) r1) as [d|] eqn:Hl.
    + destruct d as [|kv d].
      * intro H; destruct (Halloc _ H) as [? [? ?]]; auto.
      * intro H; inversion H; subst; split; [auto|split; [auto|]].
        left; split; [reflexivity|]; eexists; split; [exact Hl|discriminate].
    + intro H; destruct (Halloc _ H) as [? [? ?]]; auto.
  - intro H; destruct (Halloc _ H) as [? [? ?]]; auto.
Qed.

Lemma pops_lack dref (wl : bool) k s :
  (wl = true /\ (k = "metrics" \/ k = "plots")) \/ (wl = false /\ k = "live") ->
  exists s3,
    (if wl then pop dref "metrics" ;; pop dref "plots" ;; mret tt
     else pop dref "live" ;; mret tt) s = (Ok tt, s3)
    /\ heap_shrinks s s3 /\ mem k (deref_val s3 dref) = false.
Proof.
  intro Hk.
  destruct wl.
  - eexists; split; [reflexivity|split].
    + eapply heap_shrinks_trans; [apply (pop_shrinks dref "metrics" s)|].
      eapply heap_shrinks_trans; [apply pop_shrinks|apply heap_shrinks_refl].
    + unfold deref_val, pop, bind, deref, mret; simpl.
      rewrite !heap_lookup_set, Nat.eqb_refl.
      destruct (heap_lookup (st_heap s) dref); simpl; [|reflexivity].
      rewrite !mem_delitem.
      destruct Hk as [[_ [-> | ->]]|[H _]]; [reflexivity|reflexivity|discriminate].
  - eexists; split; [reflexivity|split].
    + eapply heap_shrinks_trans; [apply (pop_shrinks dref "live" s)|apply heap_shrinks_refl].
    + unfold deref_val, pop, bind, deref, mret; simpl.
      rewrite !heap_lookup_set, Nat.eqb_refl.
      destruct (heap_lookup (st_heap s) dref); simpl; [|reflexivity].
      rewrite !mem_delitem.
      destruct Hk as [[H _]|[_ ->]]; [discriminate|reflexivity].
Qed.

(** C5: the secondary question group is drawn from [["live"]] in live mode
    and from [["metrics"; "plots"]] otherwise, so it never mixes the two;
    and in the merged context [{**defaults, **overrides}] of a stage of
    type [live], [metrics] and [plots] appear only if the caller's
    overrides held them, as [live] does for the other types. *)
Theorem mode_keys_exclusive :
  (forall (prov : dict string) live k, In k (lremove prov (secondary_keys live)) ->
     (live = true /\ k = "live") \/ (live = false /\ (k = "metrics" \/ k = "plots")))
  /\ (forall name type_ defaults overrides interactive s ctx s' k,
        init_context name type_ defaults overrides interactive s = (Ok ctx, s') ->
        (String.eqb type_ "live" = true /\ (k = "metrics" \/ k = "plots"))
        \/ (String.eqb type_ "live" = false /\ k = "live") ->
        mem k ctx = true ->
        exists r od, overrides = Some r /\ heap_lookup (st_heap s) r = Some od
                     /\ mem k od = true).
Proof.
  split.
  { intros prov live k Hin; apply in_lremove in Hin.
    destruct live; simpl in Hin; intuition. }
  intros name type_ defaults overrides interactive s ctx s' k H Hk Hm.
  unfold init_context in H.
  destruct (or_empty defaults s) as [[dref|e] s1] eqn:E1;
    [|unfold bind in H; rewrite E1 in H; discriminate].
  rewrite (bind_ok _ _ _ _ _ E1) in H; cbv beta in H.
  destruct (or_empty overrides s1) as [[oref|e] s2] eqn:E2;
    [|unfold bind in H; rewrite E2 in H; discriminate].
  rewrite (bind_ok _ _ _ _ _ E2) in H; cbv beta zeta in H.
  destruct (or_empty_origin _ _ _ _ E1) as [_ [B1 _]].
  destruct (or_empty_origin _ _ _ _ E2) as [F2 [_ O2]].
  assert (Hmid : exists dflt s3, heap_shrinks s2 s3 /\ mem k dflt = false
                                 /\ ctx = update dflt (deref_val s3 oref)).
  { destruct interactive.
    - destruct (init_interactive name dref oref (Some validate_prompts_input) true
                  (String.eqb type_ "live") s2) as [[dflt|e] s3] eqn:E3;
        [|unfold bind in H; rewrite E3 in H; discriminate].
      rewrite (bind_ok _ _ _ _ _ E3) in H; cbv beta in H.
      unfold bind, deref, mret in H; injection H as Hc _; subst ctx.
      exists dflt, s3; split.
      { pose proof (init_interactive_shrinks name dref oref (Some validate_prompts_input)
                      true (String.eqb type_ "live") s2) as Hs.
        rewrite E3 in Hs; exact Hs. }
      split; [|reflexivity].
      destruct (mem k dflt) eqn:Ek; [exfalso|reflexivity].
      destruct (init_interactive_keys _ _ _ _ _ _ _ _ _ E3 k Ek) as [->|[Hp|Hs]].
      + destruct Hk as [[_ [Hk|Hk]]|[_ Hk]]; discriminate.
      + simpl in Hp; destruct Hk as [[_ [-> | ->]]|[_ ->]]; intuition discriminate.
      + destruct Hk as [[Hw [-> | ->]]|[Hw ->]]; rewrite Hw in Hs; simpl in Hs;
          intuition discriminate.
    - destruct (pops_lack dref (String.eqb type_ "live") k s2 Hk) as [s3 [Ep [Hs Hd]]].
      assert (Ed : bind (if String.eqb type_ "live"
                         then pop dref "metrics" ;; pop dref "plots" ;; mret tt
                         else pop dref "live" ;; mret tt) (fun _ => deref dref) s2
                   = (Ok (deref_val s3 dref), s3))
        by (rewrite (bind_ok _ _ _ _ _ Ep); reflexivity).
      rewrite (bind_ok _ _ _ _ _ Ed) in H; cbv beta in H.
      unfold bind, deref, mret in H; injection H as Hc _; subst ctx.
      exists (deref_val s3 dref), s3; split; [exact Hs|split; [exact Hd|reflexivity]]. }
  destruct Hmid as [dflt [s3 [Hs3 [Hd ->]]]].
  rewrite mem_update, Hd in Hm; simpl in Hm.
  unfold deref_val in Hm.
  destruct (heap_lookup (st_heap s3) oref) as [d3|] eqn:L3; [|discriminate].
  destruct O2 as [[Ho [d [Hd1 Hne]]]|Hfresh].
  - exists oref, d; split; [exact Ho|].
    destruct (B1 _ _ Hd1) as [Hd0|]; [|contradiction].
    split; [exact Hd0|].
    destruct (Hs3 oref d (F2 _ _ Hd1)) as [d3' [L3' Hsub]].
    rewrite L3 in L3'; inversion L3'; subst; apply Hsub, Hm.
  - destruct (Hs3 oref [] Hfresh) as [d3' [L3' Hsub]].
    rewrite L3 in L3'; inversion L3'; subst.
    specialize (Hsub k Hm); discriminate.
Qed.

Lemma mode_keys_exclusive_witness :
  ((true = true /\ "live" = "live")
   \/ (true = false /\ ("live" = "metrics" \/ "live" = "plots")))
  /\ exists r od, Some 1%nat = Some r /\ heap_lookup (st_heap w_modes_state) r = Some od
                  /\ mem "metrics" od = true.
Proof.
  destruct mode_keys_exclusive as [A B].
  split; [apply (A w_overrides true "live"); vm_compute; left; reflexivity|].
  apply (B "live" "live" (Some 2%nat) (Some 1%nat) false w_modes_state
           [("cmd", "python train.py"); ("metrics", "m.json")]
           (snd (init_context "live" "live" (Some 2%nat) (Some 1%nat) false w_modes_state))
           "metrics");
    [vm_compute; reflexivity|left; split; [reflexivity|left; reflexivity]
    |vm_compute; reflexivity].
Defined.

(** ** C3 *)

(** One step of a chain of binds that returned [Ok]. *)
Ltac mstep H :=
  match type of H with
  | bind ?m ?k ?st = _ =>
      unfold bind at 1 in H; revert H;
      destruct (m st) as [[?a|?e] ?s] eqn:?E; intro H; [cbv beta iota in H|discriminate]
  end.

(** C3 (the code writes to standard output): every interactive run that
    gets as far as the review of the stage writes the green rule above the
    YAML with [ui.write], that is to standard output, and only the YAML
    itself to the error console. *)
Theorem preview_rule_on_stdout name type_ defaults overrides force s sp s' :
  init_stage name type_ defaults overrides true force s = (Ok sp, s') ->
  exists t0, st_trace s' = (t0 ++ [EvWrite Stdout "[green]----[/green]";
                                  EvWrite Stderr (dumps_stage (fst sp))])%list.
Proof.
  intro H; unfold init_stage in H; cbv zeta in H.
  mstep H. mstep H.
  destruct (get "cmd" a0) as [cmd|]; [|discriminate].
  mstep H. mstep H. mstep H. mstep H.
  unfold mret in H; injection H as <- <-.
  unfold bind, write in E4; simpl in E4; injection E4 as _ <-; simpl.
  exists (st_trace s4); rewrite <- app_assoc; reflexivity.
Qed.

Lemma preview_rule_on_stdout_witness :
  let run := init_stage None "default" None (Some 1%nat) true false
               (w_state ["n"; "n"; "n"; "n"]) in
  let sp := match fst run with
            | Ok sp => sp
            | Raise _ => (mkStage "" "" [] [] [] [] None [] [], None)
            end in
  exists t0, st_trace (snd run)
             = (t0 ++ [EvWrite Stdout "[green]----[/green]";
                       EvWrite Stderr (dumps_stage (fst sp))])%list.
Proof.
  intros run sp.
  apply (preview_rule_on_stdout None "default" None (Some 1%nat) false
           (w_state ["n"; "n"; "n"; "n"]) sp (snd run)).
  vm_compute; reflexivity.
Defined.

(** The output written to standard output by two complete interactive runs
    of the example: with the command in the overrides, and with no
    overrides at all (the command is then asked for, and [ui.write()]
    adds an empty line). *)
Lemma init_stdout_events :
  let on_stdout t := filter (fun e => match event_stream e with
                                      | Stdout => true | Stderr => false end) t in
  (let '(r, s') := init None "default" None (Some 1%nat) true false
                     (w_state ["n"; "n"; "n"; "n"; "y"]) in
   (exists st, r = Ok st)
   /\ on_stdout (st_trace s')
      = [EvWrite Stdout "Enter the paths for dependencies and outputs of the command.";
         EvWrite Stdout "[green]----[/green]"])
  /\ (let '(r, s') := init None "default" None None true false
                        (mkSt ["python train.py"; "n"; "n"; "n"; "n"; "n"; "n"; "y"]
                              [] [] w_repo) in
      (exists st, r = Ok st)
      /\ on_stdout (st_trace s')
         = [EvWrite Stdout "";
            EvWrite Stdout "Enter the paths for dependencies and outputs of the command.";
            EvWrite Stdout "[green]----[/green]"]).
Proof. vm_compute; split; (split; [eexists; reflexivity|reflexivity]). Qed.

(** * Further properties of the code *)

(** ** The confirmation prompt *)

(** The confirmation question is repeated, with rich's complaint, once for
    every line that is neither empty nor a yes or no answer; the first
    empty line (the default, [True]) or yes/no answer ends it, and the
    lines after it are left unread. *)
Theorem confirm_first_answer q invalid l rest b :
  Forall (fun x => x <> "" /\ confirm_response x = None) invalid ->
  (l = "" /\ b = true) \/ (l <> "" /\ confirm_response l = Some b) ->
  confirm_loop q (invalid ++ l :: rest)
  = (Ok b, rest,
     (flat_map (fun _ => [EvConfirm Stderr q;
                          EvWrite Stderr "[prompt.invalid]Please enter Y or N"]) invalid
      ++ [EvConfirm Stderr q])%list).
Proof.
  intros Hinv Hl; induction Hinv as [|x xs [Hx Hc] _ IH]; simpl.
  - destruct Hl as [[-> ->]|[Hne Hc]]; [reflexivity|].
    destruct (String.eqb_spec l "") as [|_]; [contradiction|].
    rewrite Hc; reflexivity.
  - destruct (String.eqb_spec x "") as [|_]; [contradiction|].
    rewrite Hc, IH; reflexivity.
Qed.

(** ** A single question *)

(** The validators the code hands to [_prompt]. *)
Lemma validate_no_terminate k val fs :
  fst (validate_prompts_input k val fs) <> VRaise InputTerminated.
Proof.
  unfold validate_prompts_input.
  destruct val as [v|]; [|discriminate].
  destruct (String.eqb k "params").
  - destruct (loadd_params fs v) as [a|e] eqn:E; [discriminate|].
    destruct e; try discriminate.
    unfold loadd_params in E; destruct (get v fs) as [[|[]]|]; discriminate.
  - destruct (String.eqb k "code" || String.eqb k "data");
      [destruct (path_exists fs v)|]; discriminate.
Qed.

(** A question fails with [InputTerminated] only when the input has run
    out: nothing is left unread and the last thing on the error console is
    the question followed by the blank line of [get_input]. *)
Theorem prompt_terminated_at_eof cls key v def fs lines rest t :
  v = None \/ v = Some validate_prompts_input ->
  prompt_loop cls key v def fs lines = (Raise InputTerminated, rest, t) ->
  rest = [] /\ exists t0, t = (t0 ++ [EvAsk Stderr key; EvWrite Stderr ""])%list.
Proof.
  intro Hv; revert rest t; induction lines as [|l ls IH]; intros rest t H;
    simpl in H.
  - inversion H; subst; split; [reflexivity|exists []; reflexivity].
  - destruct (rich_response cls def l) as [msg|value].
    + destruct (prompt_loop cls key v def fs ls) as [[r' rs'] t'] eqn:E.
      inversion H; subst. destruct (IH _ _ ltac:(first [exact E|reflexivity])) as [-> [t0 ->]].
      split; [reflexivity|]. exists (EvAsk prompt_console key :: EvWrite prompt_console msg :: t0).
      reflexivity.
    + destruct Hv as [->| ->]; [discriminate|].
      destruct (validate_prompts_input key value fs) as [vr evs] eqn:Ef.
      destruct vr as [|reason|e]; [discriminate| |].
      * destruct (prompt_loop cls key (Some validate_prompts_input) def fs ls)
          as [[r' rs'] t'] eqn:E.
        inversion H; subst. destruct (IH _ _ ltac:(first [exact E|reflexivity])) as [-> [t0 ->]].
        split; [reflexivity|].
        exists (EvAsk prompt_console key :: evs
                ++ EvWrite Stderr ("[red]" ++ reason ++ "[/]") :: t0)%list.
        simpl; rewrite <- app_assoc; reflexivity.
      * inversion H; subst. exfalso; apply (validate_no_terminate key value fs).
        rewrite Ef; reflexivity.
Qed.

(** Every line read is the answer to one showing of the question: the
    question is shown as many times as lines are consumed, once more when
    the input runs out. *)
Theorem prompt_one_ask_per_line cls key v def fs lines r rest t :
  v = None \/ v = Some validate_prompts_input ->
  prompt_loop cls key v def fs lines = (r, rest, t) ->
  exists consumed, lines = (consumed ++ rest)%list /\
    (length (asked t) = length consumed
     \/ (r = Raise InputTerminated /\ rest = []
         /\ length (asked t) = S (length consumed))).
Proof.
  intro Hv.
  assert (Hq : quiet v).
  { destruct Hv as [->| ->]; [intros f k val fs' E; discriminate|exact quiet_validate]. }
  revert r rest t; induction lines as [|l ls IH]; intros r rest t H; simpl in H.
  - inversion H; subst. exists []; split; [reflexivity|right; auto].
  - destruct (rich_response cls def l) as [msg|value].
    + destruct (prompt_loop cls key v def fs ls) as [[r' rs'] t'] eqn:E.
      inversion H; subst. destruct (IH _ _ _ ltac:(first [exact E|reflexivity])) as [c [-> Hc]].
      exists (l :: c); split; [reflexivity|]. simpl.
      destruct Hc as [Hc|[? [? Hc]]]; [left|right]; repeat split; auto; lia.
    + destruct v as [f|]; [|inversion H; subst; exists [l]; split; [reflexivity|left; reflexivity]].
      destruct (f key value fs) as [vr evs] eqn:Ef.
      assert (He : asked evs = []).
      { change evs with (snd (vr, evs)); rewrite <- Ef; eapply Hq; reflexivity. }
      destruct vr as [|reason|e].
      * inversion H; subst; exists [l]; split; [reflexivity|left; simpl; rewrite He; reflexivity].
      * destruct (prompt_loop cls key (Some f) def fs ls) as [[r' rs'] t'] eqn:E.
        inversion H; subst. destruct (IH _ _ _ ltac:(first [exact E|reflexivity])) as [c [-> Hc]].
        exists (l :: c); split; [reflexivity|].
        simpl; rewrite asked_app, He; simpl.
        destruct Hc as [Hc|[? [? Hc]]]; [left|right]; repeat split; auto; lia.
      * inversion H; subst; exists [l]; split; [reflexivity|left; simpl; rewrite He; reflexivity].
Qed.

(** With no default, the [cmd] question is asked again, with
    [response_required], after every blank line; the first line that is
    not blank is the answer, stripped. *)
Theorem cmd_first_nonblank fs blanks l rest :
  Forall (fun b => strip b = "") blanks -> strip l <> "" ->
  prompt_loop (prompt_cls_of "cmd") "cmd" None None fs (blanks ++ l :: rest)
  = (Ok (Some (strip l)), rest,
     (flat_map (fun _ => [EvAsk Stderr "cmd"; EvWrite Stderr response_required]) blanks
      ++ [EvAsk Stderr "cmd"])%list).
Proof.
  intros Hb Hl; induction Hb as [|x xs Hx _ IH]; simpl.
  - unfold process_response.
    destruct (String.eqb_spec (strip l) "") as [|_]; [contradiction|reflexivity].
  - unfold process_response at 1; rewrite Hx; simpl.
    simpl in IH; rewrite IH; reflexivity.
Qed.

(** An answer to [code] or [data] is accepted whether or not the path
    exists; a missing path only adds the yellow warning. *)
Theorem code_data_accepted key def fs l rest v :
  key = "code" \/ key = "data" -> strip l = v -> v <> "" -> v <> "n" ->
  prompt_loop (prompt_cls_of key) key (Some validate_prompts_input) def fs (l :: rest)
  = (Ok (Some v), rest,
     EvAsk Stderr key
       :: (if path_exists fs v then []
           else [EvWrite Stderr ("[yellow]'" ++ v ++ "' does not exist in the workspace. "
                                 ++ dq ++ "exp run" ++ dq ++ " may fail.[/]")])).
Proof.
  intros Hk Hs Hne Hn.
  replace (prompt_cls_of key) with SkippablePrompt
    by (destruct Hk as [-> | ->]; reflexivity).
  cbn [prompt_loop]; rewrite (rich_skip_value def l v Hs Hne Hn).
  destruct Hk as [-> | ->]; simpl; destruct (path_exists fs v); reflexivity.
Qed.

Lemma confirm_first_answer_witness :
  confirm_loop "Add?" (["maybe"] ++ " Y " :: ["n"])
  = (Ok true, ["n"],
     (flat_map (fun _ => [EvConfirm Stderr "Add?";
                          EvWrite Stderr "[prompt.invalid]Please enter Y or N"]) ["maybe"]
      ++ [EvConfirm Stderr "Add?"])%list).
Proof.
  apply (confirm_first_answer "Add?" ["maybe"] " Y " ["n"] true).
  - constructor; [split; [discriminate|reflexivity]|constructor].
  - right; split; [discriminate|reflexivity].
Defined.

Lemma prompt_terminated_at_eof_witness :
  exists rest t,
    prompt_loop SkippablePrompt "params" (Some validate_prompts_input) None
                (r_fs w_repo) ["missing.yaml"] = (Raise InputTerminated, rest, t)
    /\ rest = [] /\ exists t0, t = (t0 ++ [EvAsk Stderr "params"; EvWrite Stderr ""])%list.
Proof.
  eexists _, _; split; [reflexivity|].
  apply (prompt_terminated_at_eof SkippablePrompt "params" (Some validate_prompts_input)
           None (r_fs w_repo) ["missing.yaml"]).
  - right; reflexivity.
  - reflexivity.
Defined.

Lemma prompt_one_ask_per_line_witness :
  exists r rest t,
    prompt_loop SkippablePrompt "params" (Some validate_prompts_input) None
                (r_fs w_repo) ["missing.yaml"; "params.yaml"; "x"] = (r, rest, t)
    /\ exists consumed, ["missing.yaml"; "params.yaml"; "x"] = (consumed ++ rest)%list /\
       (length (asked t) = length consumed
        \/ (r = Raise InputTerminated /\ rest = []
            /\ length (asked t) = S (length consumed))).
Proof.
  eexists _, _, _; split; [reflexivity|].
  apply (prompt_one_ask_per_line SkippablePrompt "params" (Some validate_prompts_input)
           None (r_fs w_repo) ["missing.yaml"; "params.yaml"; "x"]).
  - right; reflexivity.
  - reflexivity.
Defined.

Lemma cmd_first_nonblank_witness :
  prompt_loop (prompt_cls_of "cmd") "cmd" None None (r_fs w_repo)
              (["  "; ""] ++ " python train.py " :: ["x"])
  = (Ok (Some (strip " python train.py ")), ["x"],
     (flat_map (fun _ => [EvAsk Stderr "cmd"; EvWrite Stderr response_required]) ["  "; ""]
      ++ [EvAsk Stderr "cmd"])%list).
Proof.
  apply (cmd_first_nonblank (r_fs w_repo) ["  "; ""] " python train.py " ["x"]).
  - constructor; [reflexivity|constructor; [reflexivity|constructor]].
  - intro H; vm_compute in H; discriminate H.
Defined.

Lemma code_data_accepted_witness :
  prompt_loop (prompt_cls_of "data") "data" (Some validate_prompts_input) None
              (r_fs w_repo) [" raw "]
  = (Ok (Some "raw"), [],
     EvAsk Stderr "data"
       :: (if path_exists (r_fs w_repo) "raw" then []
           else [EvWrite Stderr ("[yellow]'" ++ "raw" ++ "' does not exist in the workspace. "
                                 ++ dq ++ "exp run" ++ dq ++ " may fail.[/]")])).
Proof.
  apply (code_data_accepted "data" None (r_fs w_repo) " raw " [] "raw").
  - right; reflexivity.
  - reflexivity.
  - discriminate.
  - discriminate.
Defined.

(** ** [_prompts] *)

Lemma keys_setitem_new {V} k (v : V) d :
  ~ In k (keys d) -> keys (setitem k v d) = (keys d ++ [k])%list.
Proof.
  induction d as [|[k' v'] d IH]; simpl; intro H; [reflexivity|].
  destruct (String.eqb_spec k k') as [->|Hne]; [exfalso; apply H; left; reflexivity|].
  simpl; f_equal; apply IH; intro Hk; apply H; right; exact Hk.
Qed.

(** The dict comprehension of [_prompts] answers the keys in the order
    they are given: a completed run has exactly those keys, in order. *)
Theorem prompts_keys_in_order ks d v s r s' :
  NoDup ks -> _prompts ks d v s = (Ok r, s') -> keys r = ks.
Proof.
  unfold _prompts.
  assert (G : forall acc s, NoDup (keys acc ++ ks) ->
              prompts_from ks d v acc s = (Ok r, s') -> keys r = (keys acc ++ ks)%list).
  { induction ks as [|k ks IH]; intros acc s0 Hnd H; simpl in H.
    - inversion H; subst; rewrite app_nil_r; reflexivity.
    - unfold bind at 1, deref at 1 in H. unfold bind in H.
      unfold _prompt at 1 in H.
      destruct (prompt_loop _ k v _ _ _) as [[r1 rest] t1] eqn:E.
      destruct r1 as [a|e]; [|discriminate].
      assert (Hk : ~ In k (keys acc)).
      { intro Hin; apply (NoDup_remove_2 _ _ _ Hnd); apply in_or_app; left; exact Hin. }
      assert (Hnd' : NoDup (keys (setitem k a acc) ++ ks)).
      { rewrite (keys_setitem_new _ _ _ Hk), <- app_assoc; exact Hnd. }
      rewrite (IH _ _ Hnd' H), (keys_setitem_new _ _ _ Hk), <- app_assoc; reflexivity. }
  intro Hnd; apply (G [] s); exact Hnd.
Qed.

(** ** The workspace tree *)

Lemma insert_sorted_perm x l : Permutation (insert_sorted x l) (x :: l).
Proof.
  induction l as [|y r IH]; simpl; [reflexivity|].
  destruct (String.leb x y); [reflexivity|].
  transitivity (y :: x :: r); [constructor; exact IH|constructor].
Qed.

Lemma sorted_perm l : Permutation (sorted l) l.
Proof.
  induction l as [|x r IH]; simpl; [reflexivity|].
  rewrite insert_sorted_perm; constructor; exact IH.
Qed.

Lemma insert_sorted_Sorted x l :
  Sorted (fun a b => String.leb a b = true) l ->
  Sorted (fun a b => String.leb a b = true) (insert_sorted x l).
Proof.
  induction l as [|y r IH]; intro H; simpl; [repeat constructor|].
  inversion H as [|? ? Hr Hhd]; subst.
  destruct (String.leb x y) eqn:E; [constructor; [exact H|constructor; exact E]|].
  assert (Hyx : String.leb y x = true).
  { destruct (String.leb_total x y) as [H1|H1]; [congruence|exact H1]. }
  constructor; [apply IH; exact Hr|].
  destruct r as [|z r']; simpl; [constructor; exact Hyx|].
  destruct (String.leb x z); constructor; [exact Hyx|inversion Hhd; assumption].
Qed.

Lemma sorted_Sorted l : Sorted (fun a b => String.leb a b = true) (sorted l).
Proof.
  induction l as [|x r IH]; simpl; [constructor|apply insert_sorted_Sorted; exact IH].
Qed.

(** The tree lists, sorted, the values of the workspace items that are not
    suppressed: [live] unless in live mode or provided, [plots] and
    [metrics] in live mode unless provided. *)
Theorem tree_values_sorted live prov w :
  Sorted (fun a b => String.leb a b = true) (tree_values live prov w)
  /\ Permutation (tree_values live prov w)
       (map snd (filter (fun kv =>
          negb ((String.eqb (fst kv) "live" && negb live && negb (mem "live" prov))
                || ((String.eqb (fst kv) "plots" || String.eqb (fst kv) "metrics")
                    && live && negb (mem (fst kv) prov)))) w)).
Proof.
  split; [apply sorted_Sorted|].
  unfold tree_values; rewrite sorted_perm.
  apply Permutation_refl'; f_equal; simpl.
  destruct live, (mem "live" prov) eqn:El, (mem "plots" prov) eqn:Ep,
    (mem "metrics" prov) eqn:Em; cbn [fold_left negb andb];
    unfold delitem; induction w as [|[k x] w IH]; try reflexivity;
    repeat (cbn [fold_left filter fst negb andb orb]; rewrite ?El, ?Ep, ?Em;
            match goal with
            | |- context [String.eqb ?a ?b] => destruct (String.eqb_spec a b); subst
            end);
    cbn [filter fst negb andb orb]; rewrite ?El, ?Ep, ?Em;
    cbn [filter negb andb orb]; congruence.
Qed.

(** ** What the session returns *)

Lemma compact_nonblank k x d : In (k, x) (compact d) -> x <> "".
Proof.
  induction d as [|[k0 [v0|]] d IH]; simpl; [tauto| |exact IH].
  destruct (String.eqb_spec v0 "") as [_|Hne]; [exact IH|].
  intros [H|H]; [inversion H; subst; exact Hne|exact (IH H)].
Qed.

(** The session never hands back a skipped or blank answer: every value
    of its result is a non-empty string. *)
Theorem init_interactive_nonblank name d p v t live s r s' :
  init_interactive name d p v t live s = (Ok r, s') ->
  forall k x, In (k, x) r -> x <> "".
Proof.
  intro H; revert s r s' H.
  change (returns (fun r => forall k x, In (k, x) r -> x <> "")
                  (init_interactive name d p v t live)).
  unfold init_interactive.
  apply returns_bind with (P := fun _ => True); [apply returns_any|intros command _].
  apply returns_bind with (P := fun _ => True); [apply returns_any|intros prov _].
  cbv zeta.
  destruct (negb _); [apply returns_mret; intros k x []|].
  apply returns_bind with (P := fun _ => True); [apply returns_any|intros ret _].
  apply returns_mret; intros k x; apply compact_nonblank.
Qed.

(** ** Non-interactive [init] does no console input or output *)

Lemma same_io_refl s : same_io s s.
Proof. split; reflexivity. Qed.

Lemma same_io_trans s1 s2 s3 : same_io s1 s2 -> same_io s2 s3 -> same_io s1 s3.
Proof. unfold same_io; intros [? ?] [? ?]; split; congruence. Qed.

Lemma pop_same_io r k : stable same_io (pop r k).
Proof. intro s; split; reflexivity. Qed.

Lemma alloc_same_io d : stable same_io (alloc d).
Proof. intro s; split; reflexivity. Qed.

Lemma put_repo_same_io r : stable same_io (put_repo r).
Proof. intro s; split; reflexivity. Qed.

#[local] Hint Resolve same_io_refl same_io_trans pop_same_io alloc_same_io
  put_repo_same_io : frame.

Lemma or_empty_same_io o : stable same_io (or_empty o).
Proof. unfold or_empty; frame. Qed.

Lemma check_same_io name force : stable same_io (_check_stage_exists name force).
Proof. unfold _check_stage_exists; frame. Qed.

#[local] Hint Resolve or_empty_same_io check_same_io : frame.

Lemma init_context_same_io name t d o : stable same_io (init_context name t d o false).
Proof. unfold init_context; frame. Qed.

#[local] Hint Resolve init_context_same_io : frame.

Lemma init_stage_same_io name t d o f : stable same_io (init_stage name t d o false f).
Proof. unfold init_stage; frame. Qed.

Lemma commit_unit_same_io st p : stable same_io (commit_unit st p).
Proof. unfold commit_unit; frame. Qed.

#[local] Hint Resolve init_stage_same_io commit_unit_same_io : frame.

Lemma init_commit_same_io st p : stable same_io (init_commit false st p).
Proof. unfold init_commit; cbv [negb]; frame. Qed.

#[local] Hint Resolve init_commit_same_io : frame.

(** A non-interactive [init], whether it succeeds or raises, reads no
    input and writes nothing to either console. *)
Theorem init_noninteractive_silent name type_ defaults overrides force s :
  let s' := snd (init name type_ defaults overrides false force s) in
  st_input s' = st_input s /\ st_trace s' = st_trace s.
Proof.
  assert (H : stable same_io (init name type_ defaults overrides false force))
    by (unfold init; frame).
  exact (H s).
Qed.

Lemma prompts_keys_in_order_witness :
  exists r s',
    _prompts primary_keys 2 (Some validate_prompts_input)
             (mkSt ["src"; "data"; "n"; "params.yaml"] [] [(2, [])] w_repo) = (Ok r, s')
    /\ keys r = primary_keys.
Proof.
  eexists _, _; split; [reflexivity|].
  eapply (prompts_keys_in_order primary_keys 2 (Some validate_prompts_input)
           (mkSt ["src"; "data"; "n"; "params.yaml"] [] [(2, [])] w_repo)).
  - repeat constructor; simpl; intuition discriminate.
  - reflexivity.
Defined.

Lemma init_interactive_nonblank_witness :
  exists r s',
    init_interactive "default" 2 1 (Some validate_prompts_input) true false
                     (w_state ["model.pkl"; ""; "n"; "n"; "plots"]) = (Ok r, s')
    /\ forall k x, In (k, x) r -> x <> "".
Proof.
  eexists _, _; split; [cbv; reflexivity|].
  eapply (init_interactive_nonblank "default" 2 1 (Some validate_prompts_input) true false
           (w_state ["model.pkl"; ""; "n"; "n"; "plots"])).
  cbv; reflexivity.
Defined.

(** ** The merged context of a non-interactive [init] *)

Lemma deref_val_pop r k s r' :
  deref_val (snd (pop r k s)) r'
  = if Nat.eqb r r' then delitem k (deref_val s r) else deref_val s r'.
Proof.
  unfold pop, bind, deref, deref_val; simpl.
  rewrite heap_lookup_set.
  destruct (Nat.eqb r r'); [|reflexivity].
  destruct (heap_lookup (st_heap s) r); reflexivity.
Qed.

Lemma deref_val_alloc_nil s r' : deref_val (snd (alloc [] s)) r' = deref_val s r'.
Proof.
  unfold alloc, deref_val; simpl.
  destruct (heap_lookup (st_heap s) r') as [d|] eqn:E.
  - rewrite (heap_lookup_app _ _ _ _ E); reflexivity.
  - rewrite (heap_lookup_app_none _ _ _ E); simpl.
    destruct (Nat.eqb r' _); reflexivity.
Qed.

Lemma deref_val_fresh s : deref_val s (fresh (st_heap s)) = [].
Proof. unfold deref_val; rewrite heap_lookup_fresh; reflexivity. Qed.

(** [x or {}] leaves every object as it was, and the object it returns
    holds what [x] held ([{}] for [None]); it is [x] itself unless that
    is empty. *)
Lemma or_empty_run o s :
  exists rr, or_empty o s = (Ok rr, snd (or_empty o s))
  /\ deref_val s rr = match o with Some r => deref_val s r | None => [] end
  /\ (deref_val s rr = [] \/ o = Some rr)
  /\ (forall r', deref_val (snd (or_empty o s)) r' = deref_val s r')
  /\ same_io s (snd (or_empty o s)) /\ st_repo (snd (or_empty o s)) = st_repo s.
Proof.
  destruct o as [r|].
  - destruct (deref_val s r) as [|kv d] eqn:Er.
    + assert (Hr : or_empty (Some r) s = alloc [] s).
      { unfold or_empty, bind, deref; unfold deref_val in Er; simpl.
        destruct (heap_lookup (st_heap s) r) as [[|]|]; first [discriminate | reflexivity]. }
      rewrite Hr. exists (fresh (st_heap s)).
      rewrite deref_val_fresh.
      split; [reflexivity|split; [reflexivity|split; [left; reflexivity|]]].
      split; [apply deref_val_alloc_nil|split; [split; reflexivity|reflexivity]].
    + assert (Hr : or_empty (Some r) s = (Ok r, s)).
      { unfold or_empty, bind, deref; unfold deref_val in Er; simpl.
        destruct (heap_lookup (st_heap s) r) as [[|]|]; first [discriminate | reflexivity]. }
      rewrite Hr. exists r; rewrite Er.
      split; [reflexivity|split; [reflexivity|split; [right; reflexivity|]]].
      split; [reflexivity|split; [apply same_io_refl|reflexivity]].
  - exists (fresh (st_heap s)); simpl. rewrite deref_val_fresh.
    split; [reflexivity|split; [reflexivity|split; [left; reflexivity|]]].
    split; [apply deref_val_alloc_nil|split; [split; reflexivity|reflexivity]].
Qed.

Lemma pops_run dr (b : bool) s :
  exists s3,
    (if b then pop dr "metrics" ;; pop dr "plots" ;; mret tt
     else pop dr "live" ;; mret tt) s = (Ok tt, s3)
    /\ same_io s s3 /\ st_repo s3 = st_repo s
    /\ forall x, deref_val s3 x
                 = if Nat.eqb dr x
                   then (if b then delitem "plots" (delitem "metrics" (deref_val s dr))
                         else delitem "live" (deref_val s dr))
                   else deref_val s x.
Proof.
  destruct b.
  - exists (snd (pop dr "plots" (snd (pop dr "metrics" s)))).
    split; [reflexivity|split; [split; reflexivity|split; [reflexivity|intro x]]].
    rewrite !deref_val_pop, Nat.eqb_refl.
    destruct (Nat.eqb dr x); reflexivity.
  - exists (snd (pop dr "live" s)).
    split; [reflexivity|split; [split; reflexivity|split; [reflexivity|intro x]]].
    rewrite deref_val_pop; reflexivity.
Qed.

Lemma get_delitem {V} k k' (d : dict V) :
  get k (delitem k' d) = if String.eqb k k' then None else get k d.
Proof.
  unfold delitem; induction d as [|[k0 v0] d IH]; simpl; [destruct (String.eqb k k'); reflexivity|].
  destruct (String.eqb_spec k' k0) as [->|Hne]; simpl.
  - rewrite IH. destruct (String.eqb k k0); reflexivity.
  - rewrite IH. destruct (String.eqb_spec k k0) as [->|]; [|reflexivity].
    destruct (String.eqb_spec k0 k') as [->|]; [congruence|reflexivity].
Qed.

Lemma keys_delitem {V} k (d : dict V) : keys (delitem k d) = filter (fun x => negb (String.eqb k x)) (keys d).
Proof.
  unfold keys, delitem; induction d as [|[k0 v0] d IH]; simpl; [reflexivity|].
  destruct (String.eqb k k0); simpl; rewrite IH; reflexivity.
Qed.

(** The non-interactive part of [init_context]: the context is the popped
    defaults updated with the overrides, which are popped too when they
    are the very same object. *)
Lemma init_context_noninteractive_run name type_ defaults overrides s :
  let D := match defaults with Some r => deref_val s r | None => [] end in
  let O := match overrides with Some r => deref_val s r | None => [] end in
  let popd d := if String.eqb type_ "live" then delitem "plots" (delitem "metrics" d)
                else delitem "live" d in
  exists ovr s', init_context name type_ defaults overrides false s
                 = (Ok (update (popd D) ovr), s')
    /\ (ovr = O \/ (ovr = popd O /\ defaults = overrides /\ O <> []))
    /\ same_io s s' /\ st_repo s' = st_repo s
    /\ (forall x, defaults <> Some x -> deref_val s' x = deref_val s x).
Proof.
  intros D O popd.
  destruct (or_empty_run defaults s) as [dr [E1 [D1 [A1 [H1 [I1 R1]]]]]].
  set (s1 := snd (or_empty defaults s)) in *.
  destruct (or_empty_run overrides s1) as [orf [E2 [D2 [A2 [H2 [I2 R2]]]]]].
  set (s2 := snd (or_empty overrides s1)) in *.
  destruct (pops_run dr (String.eqb type_ "live") s2) as [s3 [E3 [I3 [R3 H3]]]].
  unfold init_context.
  rewrite (bind_ok _ _ _ _ _ E1), (bind_ok _ _ _ _ _ E2); cbv beta zeta iota.
  assert (Ed : bind (if String.eqb type_ "live"
                     then pop dr "metrics" ;; pop dr "plots" ;; mret tt
                     else pop dr "live" ;; mret tt) (fun _ => deref dr) s2
               = (Ok (deref_val s3 dr), s3))
    by (rewrite (bind_ok _ _ _ _ _ E3); reflexivity).
  rewrite (bind_ok _ _ _ _ _ Ed); cbv beta.
  exists (deref_val s3 orf), s3.
  assert (HO : deref_val s1 orf = O).
  { rewrite D2; destruct overrides; [apply H1|reflexivity]. }
  assert (HD : deref_val s2 dr = D) by (rewrite H2, H1; exact D1).
  split.
  { transitivity (Ok (update (deref_val s3 dr) (deref_val s3 orf)) : res (dict string), s3);
      [reflexivity|].
    rewrite (H3 dr), Nat.eqb_refl, HD; reflexivity. }
  split.
  { rewrite H3, !H2. destruct (Nat.eqb_spec dr orf) as [<-|_]; [|left; exact HO].
    rewrite <- HO.
    destruct (deref_val s1 dr) as [|kv d] eqn:Ed1.
    - left; destruct (String.eqb type_ "live"); reflexivity.
    - right; split; [reflexivity|split; [|discriminate]].
      rewrite H1 in Ed1.
      destruct A1 as [A1|A1]; [congruence|].
      destruct A2 as [A2|A2]; [discriminate|congruence]. }
  split; [eapply same_io_trans; [exact I1|eapply same_io_trans; [exact I2|exact I3]]|].
  split; [congruence|].
  intros x Hx. rewrite H3, !H2, !H1.
  destruct (Nat.eqb_spec dr x) as [<-|_]; [|reflexivity].
  destruct A1 as [A1|A1]; [|congruence].
  rewrite A1; destruct (String.eqb type_ "live"); reflexivity.
Qed.

Lemma pop_run r k s : pop r k s = (Ok (get k (deref_val s r)), snd (pop r k s)).
Proof. reflexivity. Qed.

Lemma deref_run r s : deref r s = (Ok (deref_val s r), s).
Proof. reflexivity. Qed.

Lemma check_pass name force s :
  ~ dup_cond name force (st_repo s) -> _check_stage_exists name force s = (Ok tt, s).
Proof.
  intro Hnd; unfold _check_stage_exists, bind, get_repo; simpl.
  unfold dup_cond in Hnd.
  destruct force, (stage_exists (r_dvcyaml (st_repo s)) name); simpl; tauto.
Qed.

(** [{**defaults, **overrides}] in a non-interactive [init]: an override
    wins; a key the overrides lack takes the value of the defaults, except
    the keys that the stage type suppresses ([metrics] and [plots] for
    type [live], [live] for the others), which are then absent.  The two
    arguments are distinct dicts, and the overrides, as a Python dict,
    have no repeated key. *)
Theorem init_context_merge name type_ defaults overrides s ctx s' k :
  (forall r, defaults = Some r -> overrides = Some r -> deref_val s r = []) ->
  NoDup (keys (match overrides with Some r => deref_val s r | None => [] end)) ->
  init_context name type_ defaults overrides false s = (Ok ctx, s') ->
  get k ctx
  = match get k (match overrides with Some r => deref_val s r | None => [] end) with
    | Some v => Some v
    | None =>
        if (if String.eqb type_ "live" then String.eqb k "metrics" || String.eqb k "plots"
            else String.eqb k "live")
        then None
        else get k (match defaults with Some r => deref_val s r | None => [] end)
    end.
Proof.
  intros Halias Hnd H.
  pose proof (init_context_noninteractive_run name type_ defaults overrides s) as Hrun.
  cbv zeta in Hrun. destruct Hrun as [ovr [s2 [E [Ho _]]]].
  rewrite E in H; injection H as <- _.
  destruct Ho as [->|[-> [Hdo Hne]]].
  - rewrite get_update by exact Hnd.
    destruct (get k _); [reflexivity|].
    destruct (String.eqb type_ "live"); rewrite ?get_delitem;
      destruct (String.eqb k "metrics"), (String.eqb k "plots"), (String.eqb k "live");
      reflexivity.
  - exfalso; apply Hne. subst overrides.
    destruct defaults as [r|]; [apply (Halias r); reflexivity|reflexivity].
Qed.

(** A non-interactive [init] whose defaults and overrides both lack [cmd]
    fails the [assert "cmd" in context] once the pre-check has passed,
    and leaves the repository as it was. *)
Theorem init_noninteractive_requires_cmd name type_ defaults overrides force s :
  ~ dup_cond (stage_name name type_) force (st_repo s) ->
  (forall r, defaults = Some r -> mem "cmd" (deref_val s r) = false) ->
  (forall r, overrides = Some r -> mem "cmd" (deref_val s r) = false) ->
  fst (init name type_ defaults overrides false force s) = Raise AssertionError
  /\ st_repo (snd (init name type_ defaults overrides false force s)) = st_repo s.
Proof.
  intros Hnd Hd Ho.
  pose proof (init_context_noninteractive_run (stage_name name type_) type_ defaults
                overrides s) as Hrun.
  cbv zeta in Hrun. destruct Hrun as [ovr [s2 [E [Hovr [_ [R2 _]]]]]].
  assert (HD : mem "cmd" (match defaults with Some r => deref_val s r | None => [] end) = false)
    by (destruct defaults; [apply Hd; reflexivity|reflexivity]).
  assert (HO : mem "cmd" (match overrides with Some r => deref_val s r | None => [] end) = false)
    by (destruct overrides; [apply Ho; reflexivity|reflexivity]).
  match type of E with _ = (Ok ?c, _) => assert (Hc : get "cmd" c = None) end.
  { apply get_mem_false; rewrite mem_update.
    destruct (String.eqb type_ "live"); rewrite ?mem_delitem; simpl; rewrite HD; simpl;
      destruct Hovr as [->|[-> _]]; rewrite ?mem_delitem; simpl; exact HO. }
  assert (Hs : init_stage name type_ defaults overrides false force s
               = (Raise AssertionError, s2)).
  { unfold init_stage; cbv zeta.
    rewrite (bind_ok _ _ _ _ _ (check_pass _ _ _ Hnd)).
    rewrite (bind_ok _ _ _ _ _ E); cbv beta. rewrite Hc; reflexivity. }
  assert (Hi : init name type_ defaults overrides false force s = (Raise AssertionError, s2))
    by (unfold init, bind; rewrite Hs; reflexivity).
  rewrite Hi; split; [reflexivity|exact R2].
Qed.

(** An interactive [init] whose overrides give every path of the session
    but no usable command takes the session's early return: it asks
    nothing, writes nothing, and then fails the [assert "cmd" in context]
    with the repository as it was. *)
Theorem init_interactive_no_cmd_asserts name type_ defaults r force s :
  ~ dup_cond (stage_name name type_) force (st_repo s) ->
  forallb (fun k => mem k (deref_val s r))
          (primary_keys ++ secondary_keys (String.eqb type_ "live")) = true ->
  truthy (get "cmd" (deref_val s r)) = false ->
  let s' := snd (init name type_ defaults (Some r) true force s) in
  fst (init name type_ defaults (Some r) true force s) = Raise AssertionError
  /\ st_input s' = st_input s /\ st_trace s' = st_trace s /\ st_repo s' = st_repo s.
Proof.
  intros Hnd Hall Hcmd s'.
  rewrite forallb_forall in Hall.
  destruct (or_empty_run defaults s) as [dr [E1 [_ [_ [H1 [I1 R1]]]]]].
  set (s1 := snd (or_empty defaults s)) in *.
  destruct (or_empty_run (Some r) s1) as [orf [E2 [D2 [_ [H2 [I2 R2]]]]]].
  set (s2 := snd (or_empty (Some r) s1)) in *.
  cbv beta iota in D2; rewrite (H1 r) in D2.
  set (s3 := snd (pop orf "cmd" s2)).
  assert (Hd3 : deref_val s3 orf = delitem "cmd" (deref_val s r)).
  { unfold s3; rewrite deref_val_pop, Nat.eqb_refl, H2, D2; reflexivity. }
  assert (Hii : forall v t,
             init_interactive (stage_name name type_) dr orf v t (String.eqb type_ "live") s2
             = (Ok [], s3)).
  { intros v t; unfold init_interactive.
    rewrite (bind_ok _ _ _ _ _ (pop_run orf "cmd" s2)); cbv beta.
    fold s3; rewrite (bind_ok _ _ _ _ _ (deref_run orf s3)); cbv beta zeta.
    rewrite H2, D2, Hcmd, Hd3.
    rewrite !lremove_all; [reflexivity| |];
      intros k Hk; rewrite mem_delitem;
      (destruct (String.eqb_spec k "cmd") as [->|_];
       [simpl in Hk; destruct (String.eqb type_ "live"); simpl in Hk; intuition discriminate|]);
      apply Hall; apply in_or_app; auto. }
  assert (Hc : init_context (stage_name name type_) type_ defaults (Some r) true s
               = (Ok (update [] (delitem "cmd" (deref_val s r))), s3)).
  { unfold init_context.
    rewrite (bind_ok _ _ _ _ _ E1), (bind_ok _ _ _ _ _ E2); cbv beta zeta iota.
    rewrite (bind_ok _ _ _ _ _ (Hii _ _)).
    rewrite (bind_ok _ _ _ _ _ (deref_run orf s3)), Hd3; reflexivity. }
  assert (Hg : get "cmd" (update [] (delitem "cmd" (deref_val s r))) = None).
  { apply get_mem_false; rewrite mem_update, mem_delitem; reflexivity. }
  assert (Hs : init_stage name type_ defaults (Some r) true force s
               = (Raise AssertionError, s3)).
  { unfold init_stage; cbv zeta.
    rewrite (bind_ok _ _ _ _ _ (check_pass _ _ _ Hnd)).
    rewrite (bind_ok _ _ _ _ _ Hc); cbv beta. rewrite Hg; reflexivity. }
  assert (Hi : init name type_ defaults (Some r) true force s = (Raise AssertionError, s3))
    by (unfold init, bind; rewrite Hs; reflexivity).
  unfold s'; rewrite Hi; simpl.
  destruct I1 as [I1 T1], I2 as [I2 T2].
  split; [reflexivity|split; [|split]]; unfold s3; simpl; congruence.
Qed.

Lemma init_context_merge_witness :
  exists ctx s',
    init_context "live" "live" (Some 2%nat) (Some 1%nat) false w_modes_state = (Ok ctx, s')
    /\ get "plots" ctx
       = match get "plots" (match Some 1%nat with
                            | Some r => deref_val w_modes_state r | None => [] end) with
         | Some v => Some v
         | None =>
             if (if String.eqb "live" "live"
                 then String.eqb "plots" "metrics" || String.eqb "plots" "plots"
                 else String.eqb "plots" "live")
             then None
             else get "plots" (match Some 2%nat with
                               | Some r => deref_val w_modes_state r | None => [] end)
         end.
Proof.
  eexists _, _; split; [cbv; reflexivity|].
  eapply (init_context_merge "live" "live" (Some 2%nat) (Some 1%nat) w_modes_state).
  - intros r H1 H2; congruence.
  - vm_compute; repeat constructor; simpl; intuition discriminate.
  - cbv; reflexivity.
Defined.

Lemma init_noninteractive_requires_cmd_witness :
  let s := mkSt [] [] [(1, [("code", "src")])] w_repo in
  fst (init None "default" None (Some 1%nat) false false s) = Raise AssertionError
  /\ st_repo (snd (init None "default" None (Some 1%nat) false false s)) = st_repo s.
Proof.
  apply (init_noninteractive_requires_cmd None "default" None (Some 1%nat) false
           (mkSt [] [] [(1, [("code", "src")])] w_repo)).
  - unfold dup_cond; simpl; intros [_ H]; discriminate.
  - intros r H; discriminate.
  - intros r H; injection H as <-; reflexivity.
Defined.

Lemma init_interactive_no_cmd_asserts_witness :
  let s := mkSt ["python train.py"] [] [(1, tl w_full_overrides)] w_repo in
  let s' := snd (init None "default" None (Some 1%nat) true false s) in
  fst (init None "default" None (Some 1%nat) true false s) = Raise AssertionError
  /\ st_input s' = st_input s /\ st_trace s' = st_trace s /\ st_repo s' = st_repo s.
Proof.
  apply (init_interactive_no_cmd_asserts None "default" None 1%nat false
           (mkSt ["python train.py"] [] [(1, tl w_full_overrides)] w_repo)).
  - unfold dup_cond; simpl; intros [_ H]; discriminate.
  - vm_compute; reflexivity.
  - vm_compute; reflexivity.
Defined.

(** ** Defaults *)

(** An empty answer to a question with a default returns the default as
    it is: not stripped, and the sentinel ["n"] not turned into a skip.
    For the keys the validator does not check, nothing else happens. *)
Theorem empty_answer_takes_default key d fs rest :
  key <> "params" -> key <> "code" -> key <> "data" ->
  prompt_loop (prompt_cls_of key) key (Some validate_prompts_input) (Some d) fs ("" :: rest)
  = (Ok (Some d), rest, [EvAsk Stderr key]).
Proof.
  intros Hp Hc Hd; simpl.
  unfold validate_prompts_input.
  destruct (String.eqb_spec key "params") as [|_]; [contradiction|].
  destruct (String.eqb_spec key "code") as [|_]; [contradiction|].
  destruct (String.eqb_spec key "data") as [|_]; [contradiction|].
  reflexivity.
Qed.

(** ** The questions of a session *)

Lemma asks_each_app k1 l1 k2 l2 :
  asks_each k1 l1 -> asks_each k2 l2 -> asks_each (k1 ++ k2) (l1 ++ l2).
Proof.
  induction 1; intro H2; simpl; [exact H2|].
  rewrite <- app_assoc; constructor; auto.
Qed.

Lemma asks_bind {A B} k1 k2 (m : M A) (f : A -> M B) :
  asks k1 m -> (forall a, asks k2 (f a)) -> asks (k1 ++ k2) (bind m f).
Proof.
  intros Hm Hf s b s' H; unfold bind in H.
  destruct (m s) as [[a|e] s1] eqn:E; [|discriminate].
  destruct (Hm _ _ _ E) as [t1 [T1 A1]]; destruct (Hf a _ _ _ H) as [t2 [T2 A2]].
  exists (t1 ++ t2)%list; split; [rewrite T2, T1, app_assoc; reflexivity|].
  rewrite asked_app; apply asks_each_app; assumption.
Qed.

Lemma asks_eq {A} ks ks' (m : M A) : ks = ks' -> asks ks m -> asks ks' m.
Proof. intros ->; exact (fun H => H). Qed.

Lemma asks_mret {A} (a : A) : asks [] (mret a).
Proof.
  intros s b s' H; inversion H; subst; exists []; split;
    [rewrite app_nil_r; reflexivity|constructor].
Qed.

Lemma asks_write x : asks [] (write (EvWrite Stderr x)) /\ asks [] (write (EvWrite Stdout x)).
Proof.
  split; intros s b s' H; inversion H; subst; eexists; (split; [reflexivity|constructor]).
Qed.

Lemma asks_deref r : asks [] (deref r).
Proof.
  intros s b s' H; inversion H; subst; exists []; split;
    [rewrite app_nil_r; reflexivity|constructor].
Qed.

Lemma asks_prompts ks d v : quiet v -> asks ks (_prompts ks d v).
Proof. intros Hq s a s' H; exact (prompts_from_asked _ _ _ _ _ _ _ Hq H). Qed.

Lemma session_asks name d p v show_tree live c primary secondary :
  quiet v ->
  asks ((if truthy c then [] else ["cmd"]) ++ primary ++ secondary)
       (session_answers name d p v show_tree live c primary secondary).
Proof.
  intro Hq; unfold session_answers.
  apply (asks_eq ([] ++ ((if truthy c then [] else ["cmd"]) ++ ([] ++ ([] ++ ([] ++
           ([] ++ ([] ++ (primary ++ (secondary ++ [])))))))))).
  { rewrite !app_nil_l, !app_nil_r; reflexivity. }
  apply asks_bind; [apply asks_write|intros _].
  apply asks_bind.
  { destruct (truthy c); simpl.
    - apply asks_mret.
    - apply (asks_bind ["cmd"] []); [apply asks_prompts; intros f k val fs E; discriminate|].
      intro r; apply (asks_bind [] []); [apply asks_write|intros _; apply asks_mret]. }
  intro ret. apply asks_bind; [apply asks_write|intros _].
  apply asks_bind; [apply asks_deref|intro dd].
  apply asks_bind; [apply asks_deref|intro prov]; cbv zeta.
  apply asks_bind; [destruct (show_tree && nonempty (update dd prov));
                    [apply asks_write|apply asks_mret]|intros _].
  apply asks_bind; [apply asks_write|intros _].
  apply asks_bind; [apply asks_prompts; exact Hq|intro p1].
  apply asks_bind; [apply asks_prompts; exact Hq|intro p2].
  apply asks_mret.
Qed.

(** A completed interactive session asks [cmd] (unless the overrides held
    a non-empty command), then each primary key the overrides lack, then
    each missing secondary key of the output mode, in this order, each one
    or more times, and nothing else; when no key is missing and no command
    was supplied either, it asks nothing at all. *)
Theorem session_question_order name dref p v show_tree live s r s' :
  v = None \/ v = Some validate_prompts_input ->
  init_interactive name dref p v show_tree live s = (Ok r, s') ->
  let command := get "cmd" (deref_val s p) in
  let prov := delitem "cmd" (deref_val s p) in
  let primary := lremove prov primary_keys in
  let secondary := lremove prov (secondary_keys live) in
  exists t, st_trace s' = (st_trace s ++ t)%list
    /\ asks_each (if truthy command || nonempty primary || nonempty secondary
                  then (if truthy command then [] else ["cmd"]) ++ primary ++ secondary
                  else []) (asked t).
Proof.
  intros Hv H command prov primary secondary.
  assert (Hq : quiet v).
  { destruct Hv as [->| ->]; [intros f k val fs E; discriminate|exact quiet_validate]. }
  unfold init_interactive in H.
  rewrite (bind_ok _ _ _ _ _ (pop_run p "cmd" s)) in H; cbv beta in H.
  rewrite (bind_ok _ _ _ _ _ (deref_run p _)) in H; cbv beta zeta in H.
  rewrite deref_val_pop, Nat.eqb_refl in H. fold command prov primary secondary in H.
  destruct (truthy command || nonempty primary || nonempty secondary);
    cbv beta iota delta [negb] in H.
  - unfold bind in H.
    destruct (session_answers name dref p v show_tree live command primary secondary
                (snd (pop p "cmd" s))) as [[ret|e] s1] eqn:E; [|discriminate].
    inversion H; subst.
    destruct (session_asks name dref p v show_tree live command primary secondary Hq _ _ _ E)
      as [t [T A]].
    exists t; split; [exact T|exact A].
  - inversion H; subst. exists []; split; [rewrite app_nil_r; reflexivity|constructor].
Qed.

Lemma empty_answer_takes_default_witness :
  prompt_loop (prompt_cls_of "models") "models" (Some validate_prompts_input) (Some "n")
              (r_fs w_repo) ("" :: [])
  = (Ok (Some "n"), [], [EvAsk Stderr "models"]).
Proof.
  apply (empty_answer_takes_default "models" "n" (r_fs w_repo) []); discriminate.
Defined.

(** Overrides (object [1]) that only give [code]. *)
Lemma session_question_order_witness :
  let s := mkSt ["python train.py"; "n"; "n"; "n"; "n"; "n"] [] [(1, [("code", "src")])]
                w_repo in
  exists r s',
    init_interactive "default" 2 1 (Some validate_prompts_input) true false s = (Ok r, s')
    /\ let command := get "cmd" (deref_val s 1) in
       let prov := delitem "cmd" (deref_val s 1) in
       let primary := lremove prov primary_keys in
       let secondary := lremove prov (secondary_keys false) in
       exists t, st_trace s' = (st_trace s ++ t)%list
         /\ asks_each (if truthy command || nonempty primary || nonempty secondary
                       then (if truthy command then [] else ["cmd"]) ++ primary ++ secondary
                       else []) (asked t).
Proof.
  intro s.
  eexists _, _; split; [cbv; reflexivity|].
  eapply (session_question_order "default" 2 1 (Some validate_prompts_input) true false s).
  - right; reflexivity.
  - cbv; reflexivity.
Defined.

(** ** The argument dict that [init] does not pop from *)

Lemma keeps_refl r s : keeps r s s.
Proof. reflexivity. Qed.

Lemma keeps_trans r s1 s2 s3 : keeps r s1 s2 -> keeps r s2 s3 -> keeps r s1 s3.
Proof. unfold keeps; congruence. Qed.

Lemma io_only_keeps {A} r (m : M A) : io_only m -> stable (keeps r) m.
Proof. intros H s; unfold keeps, deref_val; rewrite (proj1 (H s)); reflexivity. Qed.

Lemma put_repo_keeps r x : stable (keeps r) (put_repo x).
Proof. intro s; reflexivity. Qed.

#[local] Hint Resolve keeps_refl keeps_trans io_only_keeps put_repo_keeps : frame.

Lemma commit_unit_keeps r st p : stable (keeps r) (commit_unit st p).
Proof. unfold commit_unit; frame. Qed.

#[local] Hint Resolve commit_unit_keeps : frame.

Lemma init_commit_keeps r i st p : stable (keeps r) (init_commit i st p).
Proof. unfold init_commit; frame. Qed.

Lemma session_answers_keeps r name d p v t l c pr se :
  stable (keeps r) (session_answers name d p v t l c pr se).
Proof. unfold session_answers, _prompts; frame. Qed.

#[local] Hint Resolve init_commit_keeps session_answers_keeps : frame.

Lemma check_state name force s : snd (_check_stage_exists name force s) = s.
Proof.
  unfold _check_stage_exists, bind, get_repo; simpl.
  destruct (negb force && _); reflexivity.
Qed.

(** After the merged context, [init] changes no dict object. *)
Lemma keeps_init_from_context r name type_ defaults overrides interactive force s :
  keeps r s (snd (init_context (stage_name name type_) type_ defaults overrides
                   interactive s)) ->
  keeps r s (snd (init name type_ defaults overrides interactive force s)).
Proof.
  intro Hc.
  assert (Hst : keeps r s (snd (init_stage name type_ defaults overrides interactive force s))).
  { unfold init_stage; cbv zeta. unfold bind at 1.
    pose proof (check_state (stage_name name type_) force s) as Hcs.
    destruct (_check_stage_exists _ _ s) as [[u|e] s1]; simpl in Hcs; subst s1;
      [|apply keeps_refl].
    unfold bind at 1.
    destruct (init_context _ _ _ _ _ s) as [[ctx|e] s2]; simpl in Hc |- *; [|exact Hc].
    eapply keeps_trans; [exact Hc|].
    match goal with |- keeps r s2 (snd (?m s2)) =>
      assert (Hm : stable (keeps r) m) by frame; exact (Hm s2) end. }
  unfold init, bind at 1.
  destruct (init_stage _ _ _ _ _ _ s) as [[sp|e] s1]; simpl in Hst |- *; [|exact Hst].
  eapply keeps_trans; [exact Hst|apply init_commit_keeps].
Qed.

(** A non-interactive [init] never changes the caller's overrides dict
    (when it is not also the defaults dict). *)
Theorem init_noninteractive_keeps_overrides name type_ defaults r force s :
  defaults <> Some r ->
  deref_val (snd (init name type_ defaults (Some r) false force s)) r = deref_val s r.
Proof.
  intro Hne.
  apply (keeps_init_from_context r name type_ defaults (Some r) false force s).
  pose proof (init_context_noninteractive_run (stage_name name type_) type_ defaults
                (Some r) s) as Hrun.
  cbv zeta in Hrun. destruct Hrun as [ovr [s2 [E [_ [_ [_ K]]]]]].
  rewrite E; exact (K r Hne).
Qed.

Lemma init_interactive_keeps r name d p v t l s :
  p <> r \/ deref_val s r = [] ->
  keeps r s (snd (init_interactive name d p v t l s)).
Proof.
  intro Hp; unfold init_interactive.
  rewrite (bind_ok _ _ _ _ _ (pop_run p "cmd" s)); cbv beta.
  apply (keeps_trans r s (snd (pop p "cmd" s))).
  - unfold keeps; rewrite deref_val_pop.
    destruct (Nat.eqb_spec p r) as [<-|]; [|reflexivity].
    destruct Hp as [Hp|Hp]; [contradiction|rewrite Hp; reflexivity].
  - match goal with |- keeps r ?s1 (snd (?m ?s1)) =>
      assert (Hm : stable (keeps r) m) by frame; exact (Hm s1) end.
Qed.

(** An interactive [init] never changes the caller's defaults dict (when
    it is not also the overrides dict). *)
Theorem init_interactive_keeps_defaults name type_ r overrides force s :
  overrides <> Some r ->
  deref_val (snd (init name type_ (Some r) overrides true force s)) r = deref_val s r.
Proof.
  intro Hne.
  apply (keeps_init_from_context r name type_ (Some r) overrides true force s).
  destruct (or_empty_run (Some r) s) as [dr [E1 [_ [_ [H1 _]]]]].
  set (s1 := snd (or_empty (Some r) s)) in *.
  destruct (or_empty_run overrides s1) as [orf [E2 [_ [A2 [H2 _]]]]].
  set (s2 := snd (or_empty overrides s1)) in *.
  assert (K2 : keeps r s s2) by (unfold keeps; rewrite H2, H1; reflexivity).
  assert (Hp : orf <> r \/ deref_val s2 r = []).
  { destruct (Nat.eqb_spec orf r) as [->|]; [|left; assumption].
    destruct A2 as [A2|A2]; [right; rewrite H2; exact A2|contradiction]. }
  unfold init_context.
  rewrite (bind_ok _ _ _ _ _ E1), (bind_ok _ _ _ _ _ E2); cbv beta zeta iota.
  unfold bind at 1.
  pose proof (init_interactive_keeps r (stage_name name type_) dr orf
                (Some validate_prompts_input) true (String.eqb type_ "live") s2 Hp) as K3.
  destruct (init_interactive _ _ _ _ _ _ s2) as [[dflt|e] s3]; simpl in K3 |- *;
    eapply keeps_trans; eauto.
Qed.

Lemma init_noninteractive_keeps_overrides_witness :
  deref_val (snd (init None "live" (Some 2%nat) (Some 1%nat) false false w_modes_state)) 1
  = deref_val w_modes_state 1.
Proof.
  apply (init_noninteractive_keeps_overrides None "live" (Some 2%nat) 1 false w_modes_state).
  discriminate.
Defined.

Lemma init_interactive_keeps_defaults_witness :
  deref_val (snd (init None "default" (Some 2%nat) (Some 1%nat) true false
                    (mkSt ["n"; "n"; "n"; "n"; "y"] [] [(1, w_overrides); (2, [("live", "dvclive")])]
                          w_repo))) 2
  = deref_val (mkSt ["n"; "n"; "n"; "n"; "y"] [] [(1, w_overrides); (2, [("live", "dvclive")])]
                    w_repo) 2.
Proof.
  apply (init_interactive_keeps_defaults None "default" 2 (Some 1%nat) false
           (mkSt ["n"; "n"; "n"; "n"; "y"] [] [(1, w_overrides); (2, [("live", "dvclive")])]
                 w_repo)).
  discriminate.
Defined.
